(** * Pipeline orchestration and decision engine of insite-bash

    A shallow embedding of the scoring engine ([achievements.pipeline]),
    the completeness engine ([completeness.service.ts]), the status query
    ([pipeline.controller.ts]), the job queue ([pipeline.queue.ts]), the
    achievements worker ([pipeline.worker.ts]) and the cascading logo
    resolver ([logo.pipeline.ts]).

    JavaScript numbers are modelled as extended reals with [NaN]:
    rounding error of IEEE doubles is not modelled, but the non-finite
    values that [Math.log], [undefined + 1] and division produce are. *)

From Stdlib Require Import Reals Lra Lia ZArith String Ascii List Bool
  DecimalString Sorting.Permutation Sorting.Sorted.
Import ListNotations.

Open Scope R_scope.
Open Scope string_scope.

(* ------------------------------------------------------------------ *)
(** ** JavaScript numbers *)

Inductive jsnum : Type :=
  | JFin (r : R)
  | JPosInf
  | JNegInf
  | JNaN.


(** [Math.log]: [ln] on positive arguments, [-Infinity] at [0], [NaN]
    below; [Math.log(Infinity) = Infinity]. *)
Definition js_log (x : jsnum) : jsnum :=
  match x with
  | JFin r =>
      if Rlt_dec 0 r then JFin (ln r)
      else if Req_dec_T r 0 then JNegInf else JNaN
  | JPosInf => JPosInf
  | JNegInf | JNaN => JNaN
  end.

Definition js_neg (x : jsnum) : jsnum :=
  match x with
  | JFin r => JFin (- r)
  | JPosInf => JNegInf
  | JNegInf => JPosInf
  | JNaN => JNaN
  end.

Definition js_add (x y : jsnum) : jsnum :=
  match x, y with
  | JNaN, _ | _, JNaN => JNaN
  | JPosInf, JNegInf | JNegInf, JPosInf => JNaN
  | JPosInf, _ | _, JPosInf => JPosInf
  | JNegInf, _ | _, JNegInf => JNegInf
  | JFin a, JFin b => JFin (a + b)
  end.

Definition js_sub (x y : jsnum) : jsnum := js_add x (js_neg y).

(** Sign of a finite real, as used by multiplication and division with
    an infinity. *)
Definition js_scale_inf (pos : bool) (r : R) : jsnum :=
  if Rlt_dec 0 r then (if pos then JPosInf else JNegInf)
  else if Rlt_dec r 0 then (if pos then JNegInf else JPosInf)
  else JNaN.

Definition js_mul (x y : jsnum) : jsnum :=
  match x, y with
  | JNaN, _ | _, JNaN => JNaN
  | JFin a, JFin b => JFin (a * b)
  | JPosInf, JFin b | JFin b, JPosInf => js_scale_inf true b
  | JNegInf, JFin b | JFin b, JNegInf => js_scale_inf false b
  | JPosInf, JPosInf | JNegInf, JNegInf => JPosInf
  | JPosInf, JNegInf | JNegInf, JPosInf => JNegInf
  end.

(** Division; the sign of zero is not tracked, a zero divisor counts as
    [+0]. *)
Definition js_div (x y : jsnum) : jsnum :=
  match x, y with
  | JNaN, _ | _, JNaN => JNaN
  | JFin a, JFin b =>
      if Req_dec_T b 0 then
        (if Req_dec_T a 0 then JNaN else js_scale_inf true a)
      else JFin (a / b)
  | JFin _, (JPosInf | JNegInf) => JFin 0
  | (JPosInf | JNegInf), (JPosInf | JNegInf) => JNaN
  | JPosInf, JFin b => if Req_dec_T b 0 then JPosInf else js_scale_inf true b
  | JNegInf, JFin b => if Req_dec_T b 0 then JNegInf else js_scale_inf false b
  end.

(** [Math.min(x, y)] and [Math.max(x, y)]: [NaN] if either is [NaN]. *)
Definition js_min (x y : jsnum) : jsnum :=
  match x, y with
  | JNaN, _ | _, JNaN => JNaN
  | JNegInf, _ | _, JNegInf => JNegInf
  | JPosInf, z | z, JPosInf => z
  | JFin a, JFin b => JFin (Rmin a b)
  end.

Definition js_max (x y : jsnum) : jsnum :=
  match x, y with
  | JNaN, _ | _, JNaN => JNaN
  | JPosInf, _ | _, JPosInf => JPosInf
  | JNegInf, z | z, JNegInf => z
  | JFin a, JFin b => JFin (Rmax a b)
  end.

(** [Math.round]: nearest integer, halves rounded up. *)
Definition js_round (x : jsnum) : jsnum :=
  match x with
  | JFin r => JFin (IZR (Int_part (r + / 2)))
  | z => z
  end.

(* ------------------------------------------------------------------ *)
(** ** Strings *)

Definition ascii_lower (c : ascii) : ascii :=
  let n := nat_of_ascii c in
  if (65 <=? n)%nat && (n <=? 90)%nat then ascii_of_nat (n + 32) else c.

(** [String.prototype.toLowerCase] on ASCII text. *)
Fixpoint toLowerCase (s : string) : string :=
  match s with
  | EmptyString => EmptyString
  | String c s' => String (ascii_lower c) (toLowerCase s')
  end.

Fixpoint prefixb (p s : string) : bool :=
  match p, s with
  | EmptyString, _ => true
  | String c p', String d s' => Ascii.eqb c d && prefixb p' s'
  | String _ _, EmptyString => false
  end.

(** [String.prototype.includes]. *)
Fixpoint includes (s sub : string) : bool :=
  prefixb sub s ||
  match s with
  | EmptyString => false
  | String _ s' => includes s' sub
  end.

(** JavaScript truthiness of an optional string / number field
    ([undefined], [null], [""] and [0] are falsy). *)
Definition truthy_str (s : option string) : bool :=
  match s with
  | None | Some EmptyString => false
  | Some _ => true
  end.

Definition truthy_num (v : option R) : bool :=
  match v with
  | None => false
  | Some r => if Req_dec_T r 0 then false else true
  end.

(* ------------------------------------------------------------------ *)
(** ** Achievements and the scoring engine ([achievements.pipeline]) *)

(** A row of the [achievements] table as the pipelines read it
    ([select('*')]); [work_experience_id] and [metric_value_numeric] are
    the columns the completeness service selects. *)
Record Achievement : Type := mkAchievement {
  id : string;
  user_id : string;
  work_experience_id : option string;
  raw_text : string;
  metric_value : option R;
  metric_value_numeric : option R;
  metric_unit : option string;
  scope : option string;
  impact_statement : option string;
  provenance : option string;
  confidence : option R;
  requires_review : option bool
}.

Record Norm : Type := mkNorm { threshold : R; max : R }.

(** The [normalizations] object literal of [calculateMetricStrength]. *)
Definition normalizations (k : string) : option Norm :=
  if String.eqb k "percent" then Some (mkNorm 10 100)
  else if String.eqb k "million" then Some (mkNorm 1 100)
  else if String.eqb k "thousand" then Some (mkNorm 10 1000)
  else if String.eqb k "count" then Some (mkNorm 100 10000)
  else if String.eqb k "days" then Some (mkNorm 30 365)
  else if String.eqb k "users" then Some (mkNorm 1000 1000000)
  else if String.eqb k "revenue" then Some (mkNorm 100000 10000000)
  else None.

(** Property names an object literal inherits from [Object.prototype]
    that consist of lower-case characters only (so that a lower-cased
    unit can hit them): both are truthy and have no [max] field. *)
Definition is_proto_key (k : string) : bool :=
  String.eqb k "constructor" || String.eqb k "__proto__".

(** [(normalizations[k] || { threshold: 1, max: 100 }).max]; [None] is
    [undefined]. *)
Definition norm_max (k : string) : option R :=
  match normalizations k with
  | Some n => Some (max n)
  | None => if is_proto_key k then None else Some 100
  end.

(** [undefined + 1] is [NaN]. *)
Definition js_plus_one (v : option R) : jsnum :=
  match v with Some r => JFin (r + 1) | None => JNaN end.

Definition calculateMetricStrength (value : option R) (unit : option string)
    : jsnum :=
  match value, unit with
  | Some v, Some u =>
      if Req_dec_T v 0 then JFin 0.3
      else if String.eqb u "" then JFin 0.3
      else
        let m := norm_max (toLowerCase u) in
        let normalized :=
          js_min (js_div (js_log (JFin (v + 1))) (js_log (js_plus_one m)))
                 (JFin 1.0) in
        js_max (JFin 0.3) normalized
  | _, _ => JFin 0.3
  end.

Definition calculateScopeSize (scope : option string) : R :=
  match scope with
  | None | Some EmptyString => 0.5
  | Some s =>
      let scopeLower := toLowerCase s in
      if includes scopeLower "fortune 500" || includes scopeLower "enterprise"
      then 1.0
      else if includes scopeLower "company-wide"
              || includes scopeLower "organization" then 0.9
      else if includes scopeLower "department"
              || includes scopeLower "division" then 0.7
      else if includes scopeLower "team" || includes scopeLower "group"
      then 0.6
      else if includes scopeLower "project"
              || includes scopeLower "initiative" then 0.5
      else 0.5
  end.

Definition actionVerbs : list string :=
  ["led"; "managed"; "developed"; "implemented"; "increased"; "reduced";
   "improved"].

Definition calculateEvidenceStrength (a : Achievement) : R :=
  let strength := 0.5 in
  let strength :=
    if truthy_num (metric_value a) && truthy_str (metric_unit a)
    then strength + 0.3 else strength in
  let strength :=
    if truthy_str (scope a) then strength + 0.2 else strength in
  let strength :=
    match raw_text a with
    | EmptyString => strength
    | t =>
        let text := toLowerCase t in
        let strength :=
          if existsb (fun verb => includes text verb) actionVerbs
          then strength + 0.1 else strength in
        if (50 <? String.length text)%nat then strength + 0.1 else strength
    end in
  Rmin strength 1.0.

(** The unrounded weighted sum of the three components. *)
Definition weightedSum (a : Achievement) : jsnum :=
  let metricStrength :=
    calculateMetricStrength (metric_value a) (metric_unit a) in
  let scopeSize := calculateScopeSize (scope a) in
  let evidenceStrength := calculateEvidenceStrength a in
  js_add (js_add (js_mul metricStrength (JFin 0.4))
                 (js_mul (JFin scopeSize) (JFin 0.3)))
         (js_mul (JFin evidenceStrength) (JFin 0.3)).

(** [Math.round(score * 100) / 100]. *)
Definition calculateAchievementScore (a : Achievement) : jsnum :=
  js_div (js_round (js_mul (weightedSum a) (JFin 100))) (JFin 100).

(** *** Ranking and top-N selection ([runAchievementsPipeline], steps 2-4) *)

Record ScoredAchievement : Type := mkScored {
  sa : Achievement;
  score : jsnum;
  rank : nat
}.

(** [Array.prototype.sort] is stable (ECMAScript 2019). Under a
    comparator that is a consistent total preorder every stable sort has
    the same result, so an insertion sort that keeps [x] before [y]
    whenever [keep x y] models it. [keep x y] holds when the comparator
    at [(x, y)] is [<= 0]; a [NaN] comparator result counts as [+0]. *)
Fixpoint insert_stable {A : Type} (keep : A -> A -> bool) (x : A) (l : list A)
    : list A :=
  match l with
  | [] => [x]
  | y :: l' => if keep x y then x :: l else y :: insert_stable keep x l'
  end.

Fixpoint sort_stable {A : Type} (keep : A -> A -> bool) (l : list A)
    : list A :=
  match l with
  | [] => []
  | x :: l' => insert_stable keep x (sort_stable keep l')
  end.

Definition sort_keeps (c : jsnum) : bool :=
  match c with
  | JFin r => if Rle_dec r 0 then true else false
  | JPosInf => false
  | JNegInf | JNaN => true
  end.

(** The comparator [(a, b) => b.score - a.score]. *)
Definition score_comparator (a b : ScoredAchievement) : jsnum :=
  js_sub (score b) (score a).

Definition score_keep (a b : ScoredAchievement) : bool :=
  sort_keeps (score_comparator a b).

(** [scoredAchievements.forEach((a, index) => { a.rank = index + 1; })] *)
Fixpoint assign_ranks (index : nat) (l : list ScoredAchievement)
    : list ScoredAchievement :=
  match l with
  | [] => []
  | x :: l' => mkScored (sa x) (score x) (S index) :: assign_ranks (S index) l'
  end.

Definition score_all (l : list Achievement) : list ScoredAchievement :=
  map (fun a => mkScored a (calculateAchievementScore a) 0) l.

(** Steps 2 and 3: score, sort descending by score, number from 1. *)
Definition rankAchievements (l : list Achievement) : list ScoredAchievement :=
  assign_ranks 0 (sort_stable score_keep (score_all l)).

(** Step 4: [scoredAchievements.slice(0, 6)]. *)
Definition topCount : nat := 6.

Definition selectTop (l : list Achievement) : list ScoredAchievement :=
  firstn topCount (rankAchievements l).

(* ------------------------------------------------------------------ *)
(** ** The durable store *)

Record RankItem : Type := mkRankItem {
  achievement_id : string;
  item_rank : nat;
  item_score : jsnum
}.

(** A row of [achievement_rankings]; the [computed_at] timestamp of the
    [scoring] object is not modelled. *)
Record Ranking : Type := mkRanking {
  ranking_user : string;
  items : list RankItem;
  algorithm : string;
  weights : R * R * R
}.

Record PipelineRun : Type := mkRun {
  run_user : string;
  pipeline_name : string;
  status : string;
  error_message : option string
}.

Record WorkExperience : Type := mkWorkExp {
  we_id : string;
  we_user : string
}.

(** The tables the core reads and writes; [pipeline_runs] is kept newest
    first, so that [order('created_at', { ascending: false })] is the list
    order. Storage calls are modelled as succeeding. *)
Record Store : Type := mkStore {
  achievements : list Achievement;
  work_experiences : list WorkExperience;
  achievement_rankings : list Ranking;
  pipeline_runs : list PipelineRun
}.

(** *** [updatePipelineStatus] ([pipeline.worker.ts]) *)

Definition error_or_null (e : option string) : option string :=
  if truthy_str e then e else None.

(** Update the most recent run of [(userId, step)], if any. *)
Fixpoint update_latest_run (userId step st : string) (err : option string)
    (runs : list PipelineRun) : option (list PipelineRun) :=
  match runs with
  | [] => None
  | r :: rs =>
      if String.eqb (run_user r) userId && String.eqb (pipeline_name r) step
      then Some (mkRun (run_user r) (pipeline_name r) st (error_or_null err) :: rs)
      else option_map (cons r) (update_latest_run userId step st err rs)
  end.

Definition updatePipelineStatus (userId step st : string)
    (err : option string) (s : Store) : Store :=
  let runs :=
    match update_latest_run userId step st err (pipeline_runs s) with
    | Some runs' => runs'
    | None => mkRun userId step st (error_or_null err) :: pipeline_runs s
    end in
  mkStore (achievements s) (work_experiences s) (achievement_rankings s) runs.

(** The status of the latest run of [(userId, step)]. *)
Fixpoint latest_status (userId step : string) (runs : list PipelineRun)
    : option string :=
  match runs with
  | [] => None
  | r :: rs =>
      if String.eqb (run_user r) userId && String.eqb (pipeline_name r) step
      then Some (status r) else latest_status userId step rs
  end.

(** *** [runAchievementsPipeline] and the [achievements] worker *)

Section AchievementsPipeline.

(** The language-model call [generateImpactStatement]; [None] when it
    throws. *)
Variable generateImpactStatement : string -> option string.

Record Enhanced : Type := mkEnhanced {
  enh_impact_statement : string;
  enh_provenance : string;
  enh_confidence : R;
  enh_requires_review : bool
}.

Definition enhanceAchievement (a : Achievement) : Enhanced :=
  match generateImpactStatement (raw_text a) with
  | Some enhanced =>
      if truthy_num (metric_value a) && truthy_str (metric_unit a)
      then mkEnhanced enhanced "model_polish" 0.9 false
      else mkEnhanced enhanced "model_context" 0.7 true
  | None => mkEnhanced (raw_text a) "user_provided" 1.0 false
  end.

Definition apply_enhancement (aid : string) (e : Enhanced) (b : Achievement)
    : Achievement :=
  if String.eqb (id b) aid then
    mkAchievement (id b) (user_id b) (work_experience_id b) (raw_text b)
      (metric_value b) (metric_value_numeric b) (metric_unit b) (scope b)
      (Some (enh_impact_statement e)) (Some (enh_provenance e))
      (Some (enh_confidence e)) (Some (enh_requires_review e))
  else b.

(** Step 5, one iteration of the loop. *)
Definition enhance_step (s : Store) (x : ScoredAchievement) : Store :=
  let a := sa x in
  if negb (truthy_str (impact_statement a))
     || match provenance a with
        | Some p => String.eqb p "user_provided"
        | None => false
        end
  then
    let e := enhanceAchievement a in
    mkStore (map (apply_enhancement (id a) e) (achievements s))
      (work_experiences s) (achievement_rankings s) (pipeline_runs s)
  else s.

Definition saveAchievementRankings (userId : string)
    (top : list ScoredAchievement) (s : Store) : Store :=
  let kept :=
    filter (fun r => negb (String.eqb (ranking_user r) userId))
      (achievement_rankings s) in
  let items :=
    map (fun x => mkRankItem (id (sa x)) (rank x) (score x)) top in
  mkStore (achievements s) (work_experiences s)
    (kept ++ [mkRanking userId items "weighted_sum_v1" (0.4, 0.3, 0.3)])%list
    (pipeline_runs s).

Definition runAchievementsPipeline (userId : string) (s : Store) : Store :=
  let achs := filter (fun a => String.eqb (user_id a) userId) (achievements s) in
  match achs with
  | [] => s
  | _ :: _ =>
      let topAchievements := selectTop achs in
      let s1 := fold_left enhance_step topAchievements s in
      saveAchievementRankings userId topAchievements s1
  end.

(** [pipelineQueue.process('achievements', ...)]. *)
Definition achievementsJob (userId : string) (s : Store) : Store :=
  let s1 := updatePipelineStatus userId "achievements" "running" None s in
  let s2 := runAchievementsPipeline userId s1 in
  updatePipelineStatus userId "achievements" "succeeded" None s2.

End AchievementsPipeline.

(* ------------------------------------------------------------------ *)
(** ** The completeness engine ([completeness.service.ts]) *)

Inductive Strategy : Type :=
  | Complete | Polish | Context | Qualitative | Template | Hide.

Definition determineStrategy (score : R) : Strategy :=
  if Rge_dec score 0.9 then Complete
  else if Rge_dec score 0.7 then Polish
  else if Rge_dec score 0.5 then Context
  else if Rge_dec score 0.3 then Qualitative
  else if Rgt_dec score 0 then Template
  else Hide.

Record CompletenessScore : Type := mkCompleteness {
  section : string;
  cs_score : R;
  strategy : Strategy;
  missingFields : list string
}.

Definition calculateAchievementsCompleteness (s : Store) (userId : string)
    : CompletenessScore :=
  let workExps :=
    filter (fun we => String.eqb (we_user we) userId) (work_experiences s) in
  match workExps with
  | [] => mkCompleteness "achievements" 0 Template ["work_experiences"]
  | _ :: _ =>
      let workExpIds := map we_id workExps in
      let achs :=
        filter (fun a => match work_experience_id a with
                         | Some w => existsb (String.eqb w) workExpIds
                         | None => false
                         end) (achievements s) in
      match achs with
      | [] => mkCompleteness "achievements" 0 Template ["achievements"]
      | _ :: _ =>
          let len := length achs in
          let targetCount := 6%nat in
          let countScore := Rmin (INR len / INR targetCount) 1.0 in
          let withMetrics :=
            length (filter (fun a => truthy_num (metric_value_numeric a)
                                     && truthy_str (metric_unit a)) achs) in
          let metricsScore :=
            if (0 <? len)%nat then INR withMetrics / INR len else 0 in
          let withImpact :=
            length (filter (fun a => truthy_str (impact_statement a)) achs) in
          let impactScore :=
            if (0 <? len)%nat then INR withImpact / INR len else 0 in
          let score := countScore * 0.4 + metricsScore * 0.4 + impactScore * 0.2 in
          let strategy := determineStrategy score in
          let missingFields :=
            ((if (len <? targetCount)%nat then ["more_achievements"] else [])
             ++ (if Rlt_dec metricsScore 0.5 then ["metrics"] else [])
             ++ (if Rlt_dec impactScore 0.5 then ["impact_statements"] else []))%list in
          mkCompleteness "achievements" score strategy missingFields
      end
  end.

(* ------------------------------------------------------------------ *)
(** ** The status query ([pipeline.controller.ts]) *)

Definition calculateOverallStatus (pipelines : list PipelineRun) : string :=
  if (length pipelines =? 0)%nat then "not_started"
  else
    let hasRunning := existsb (fun p => String.eqb (status p) "running") pipelines in
    let hasFailed := existsb (fun p => String.eqb (status p) "failed") pipelines in
    let allSucceeded :=
      forallb (fun p => String.eqb (status p) "succeeded") pipelines in
    if hasRunning then "running"
    else if hasFailed then "failed"
    else if allSucceeded then "completed"
    else "pending".

(* ------------------------------------------------------------------ *)
(** ** The job queue ([pipeline.queue.ts]) *)

Inductive PipelineStep : Type :=
  | StepIngest | StepLogos | StepAchievements | StepStory | StepSkills
  | StepImages | StepCompleteness.

(** The step names of [PipelineJobData['step']]. *)
Definition step_name (st : PipelineStep) : string :=
  match st with
  | StepIngest => "ingest"
  | StepLogos => "logos"
  | StepAchievements => "achievements"
  | StepStory => "story"
  | StepSkills => "skills"
  | StepImages => "images"
  | StepCompleteness => "completeness"
  end.

Record PipelineJobData : Type := mkJobData {
  job_user : string;
  documentId : option string;
  siteVersionId : option string;
  step : PipelineStep
}.

Record Job : Type := mkJob {
  job_id : string;
  job_name : string;
  job_data : PipelineJobData
}.

(** The queue: the jobs it holds, the [pipelineQueue.add] calls made so
    far, and how many times [Date.now()] has been read. *)
Record QueueState : Type := mkQueue {
  clock_reads : nat;
  jobs : list Job;
  add_calls : list PipelineJobData
}.

Definition string_of_Z (z : Z) : string := NilZero.string_of_int (Z.to_int z).

Section JobQueue.

(** [Date.now()] at its [n]-th reading. *)
Variable now : nat -> Z.

Definition make_job_id (data : PipelineJobData) (t : Z) : string :=
  job_user data ++ "-" ++ step_name (step data) ++ "-" ++ string_of_Z t.

(** Bull does not add a job whose id is already in the queue; [add]
    still resolves to a job with that id. *)
Definition queuePipelineStep (data : PipelineJobData) (q : QueueState)
    : string * QueueState :=
  let jid := make_job_id data (now (clock_reads q)) in
  let jobs' :=
    if existsb (fun j => String.eqb (job_id j) jid) (jobs q) then jobs q
    else (jobs q ++ [mkJob jid (step_name (step data)) data])%list in
  (jid, mkQueue (S (clock_reads q)) jobs' (add_calls q ++ [data])%list).

Definition fullPipelineSteps : list PipelineStep :=
  [StepIngest; StepLogos; StepAchievements; StepStory; StepSkills;
   StepImages; StepCompleteness].

Fixpoint queue_steps (userId : string) (doc sv : option string)
    (steps : list PipelineStep) (q : QueueState) : list string * QueueState :=
  match steps with
  | [] => ([], q)
  | st :: rest =>
      let (jobId, q1) := queuePipelineStep (mkJobData userId doc sv st) q in
      let (jobIds, q2) := queue_steps userId doc sv rest q1 in
      (jobId :: jobIds, q2)
  end.

Definition queueFullPipeline (userId documentId : string) (sv : option string)
    (q : QueueState) : list string * QueueState :=
  queue_steps userId (Some documentId) sv fullPipelineSteps q.

End JobQueue.

(* ------------------------------------------------------------------ *)
(** ** The cascading logo resolver ([logo.pipeline.ts]) *)

Inductive Provider : Type := Brandfetch | LogoDev | Ideogram.

(** What the HTTP call of a provider ends in: a timeout, any other
    error (network, non-2xx status), or a response carrying the field
    the provider reads ([data[0]?.icon] for Brandfetch,
    [data.data[0]?.url] for Ideogram; Logo.dev reads only the status,
    and any response that is not an error is a 200). *)
Inductive Response : Type :=
  | RTimeout
  | RError
  | ROk (field : option string).

(** The environment of one resolution: the API key of each provider
    ([process.env]) and how its request ends. *)
Record LogoEnv : Type := mkLogoEnv {
  api_key : Provider -> option string;
  respond : Provider -> Response
}.

(** Observable calls: a [try*] function entered, an HTTP request sent. *)
Inductive Event : Type :=
  | Tried (p : Provider)
  | Requested (p : Provider).

Record LogoPipelineOutput : Type := mkLogoOutput {
  logoUrl : option string;
  source : string
}.

Definition truthy_field (f : option string) : option string :=
  if truthy_str f then f else None.

Definition tryBrandfetch (env : LogoEnv) (companyName : string)
    : option string * list Event :=
  if negb (truthy_str (api_key env Brandfetch)) then (None, [Tried Brandfetch])
  else
    let r :=
      match respond env Brandfetch with
      | ROk icon => truthy_field icon
      | RTimeout | RError => None
      end in
    (r, [Tried Brandfetch; Requested Brandfetch]).

Definition is_js_space (c : ascii) : bool :=
  let n := nat_of_ascii c in
  ((9 <=? n) && (n <=? 13) || (n =? 32))%nat.

(** [.replace(/\s+/g, '')] on ASCII text. *)
Fixpoint remove_spaces (s : string) : string :=
  match s with
  | EmptyString => EmptyString
  | String c s' =>
      if is_js_space c then remove_spaces s' else String c (remove_spaces s')
  end.

Definition tryLogoDev (env : LogoEnv) (companyName : string)
    : option string * list Event :=
  match api_key env LogoDev with
  | None | Some EmptyString => (None, [Tried LogoDev])
  | Some apiKey =>
      let domain := remove_spaces (toLowerCase companyName) ++ ".com" in
      let url := "https://img.logo.dev/" ++ domain ++ "?token=" ++ apiKey in
      let r :=
        match respond env LogoDev with
        | ROk _ => Some url
        | RTimeout | RError => None
        end in
      (r, [Tried LogoDev; Requested LogoDev])
  end.

Definition generateWithIdeogram (env : LogoEnv) (companyName : string)
    : option string * list Event :=
  if negb (truthy_str (api_key env Ideogram)) then (None, [Tried Ideogram])
  else
    let r :=
      match respond env Ideogram with
      | ROk url => truthy_field url
      | RTimeout | RError => None
      end in
    (r, [Tried Ideogram; Requested Ideogram]).

(** [fetchCompanyLogo]: the three stages in sequence, each taken when
    its result is truthy. Every stage catches its own errors, so the
    outer [catch] is never reached. *)
Definition fetchCompanyLogo (env : LogoEnv) (companyName : string)
    : LogoPipelineOutput * list Event :=
  let (brandfetchResult, t1) := tryBrandfetch env companyName in
  match truthy_field brandfetchResult with
  | Some u => (mkLogoOutput (Some u) "brandfetch", t1)
  | None =>
      let (logodevResult, t2) := tryLogoDev env companyName in
      match truthy_field logodevResult with
      | Some u => (mkLogoOutput (Some u) "logo.dev", (t1 ++ t2)%list)
      | None =>
          let (ideogramResult, t3) := generateWithIdeogram env companyName in
          match truthy_field ideogramResult with
          | Some u => (mkLogoOutput (Some u) "ideogram", (t1 ++ t2 ++ t3)%list)
          | None => (mkLogoOutput None "fallback", (t1 ++ t2 ++ t3)%list)
          end
      end
  end.

(** The resolver the spec describes: a provider chain folded left to
    right, the first provider with a result wins. *)
Definition provider_call (env : LogoEnv) (companyName : string) (p : Provider)
    : option string * list Event :=
  match p with
  | Brandfetch => tryBrandfetch env companyName
  | LogoDev => tryLogoDev env companyName
  | Ideogram => generateWithIdeogram env companyName
  end.

Definition provider_source (p : Provider) : string :=
  match p with
  | Brandfetch => "brandfetch"
  | LogoDev => "logo.dev"
  | Ideogram => "ideogram"
  end.

Definition providerChain : list Provider := [Brandfetch; LogoDev; Ideogram].

Fixpoint first_success (env : LogoEnv) (companyName : string)
    (chain : list Provider) : option (Provider * string) :=
  match chain with
  | [] => None
  | p :: rest =>
      match truthy_field (fst (provider_call env companyName p)) with
      | Some u => Some (p, u)
      | None => first_success env companyName rest
      end
  end.

Definition event_provider (e : Event) : Provider :=
  match e with Tried p | Requested p => p end.

Definition priority (p : Provider) : nat :=
  match p with Brandfetch => 0 | LogoDev => 1 | Ideogram => 2 end.

(* ------------------------------------------------------------------ *)
(** ** Readings of the specification used in the statements *)

(** An achievement with its metric value and unit removed. *)
Definition strip_metric (a : Achievement) : Achievement :=
  mkAchievement (id a) (user_id a) (work_experience_id a) (raw_text a)
    None (metric_value_numeric a) None (scope a) (impact_statement a)
    (provenance a) (confidence a) (requires_review a).



(** The order complete > polish > context > qualitative > template > hide. *)
Definition strategy_rank (st : Strategy) : nat :=
  match st with
  | Complete => 5 | Polish => 4 | Context => 3 | Qualitative => 2
  | Template => 1 | Hide => 0
  end.

(** The spec's precedence for the overall status. *)
Definition spec_overall_status (pipelines : list PipelineRun) : string :=
  if existsb (fun p => String.eqb (status p) "running") pipelines then "running"
  else if existsb (fun p => String.eqb (status p) "failed") pipelines then "failed"
  else if forallb (fun p => String.eqb (status p) "succeeded") pipelines
  then "completed"
  else "pending".

(** Concrete achievements. *)
Definition plain_achievement (aid : string) (text : string) : Achievement :=
  mkAchievement aid "u1" None text None None None None None None None None.


Definition with_metric (aid : string) (v : R) (unit : string) : Achievement :=
  mkAchievement aid "u1" None "" (Some v) None (Some unit) None None None None
    None.


(** Stores in which a user owns no achievement, and in which no
    achievement hangs off one of the user's work experiences. *)
Definition no_achievements_of (s : Store) (u : string) : bool :=
  forallb (fun a => negb (String.eqb (user_id a) u)) (achievements s).

Definition no_linked_achievements (s : Store) (u : string) : bool :=
  forallb (fun a =>
    match work_experience_id a with
    | Some w =>
        negb (existsb (fun we => String.eqb (we_user we) u && String.eqb (we_id we) w)
                (work_experiences s))
    | None => true
    end) (achievements s).

(** A user ([u9]) with one work experience and no achievement. *)
Definition store_no_achievements : Store :=
  mkStore [plain_achievement "a1" "Led the platform team"]
    [mkWorkExp "w1" "u9"] [] [].

(* ------------------------------------------------------------------ *)
(** ** The other sections of the completeness engine *)

(** Rows of [image_placements]. *)
Record PlacementRow : Type := mkPlacement {
  pl_user : string;
  placement : string
}.

Definition requiredPlacements : list string :=
  ["hero"; "achievements_general_main"; "achievements_career_main";
   "certifications_bg"].

Definition calculateImagesCompleteness (rows : list PlacementRow)
    (userId : string) : CompletenessScore :=
  let placements := filter (fun r => String.eqb (pl_user r) userId) rows in
  let existingPlacements := map placement placements in
  let missingFields :=
    filter (fun p => negb (existsb (String.eqb p) existingPlacements))
      requiredPlacements in
  let score := INR (length existingPlacements) / INR (length requiredPlacements) in
  let strategy := determineStrategy score in
  mkCompleteness "images" score strategy missingFields.

(** Rows of [work_experiences] with the columns the logo and
    work-experience sections select. *)
Record ExperienceRow : Type := mkExperience {
  ex_id : string;
  ex_user : string;
  company_id : option string;
  company_name : option string;
  role_title : option string;
  start_date : option string;
  end_date : option string;
  description : option string
}.

Definition expScore (exp : ExperienceRow) : R :=
  let s0 := 0 in
  let s1 := if truthy_str (company_name exp) then s0 + 0.25 else s0 in
  let s2 := if truthy_str (role_title exp) then s1 + 0.25 else s1 in
  let s3 := if truthy_str (start_date exp) then s2 + 0.25 else s2 in
  if truthy_str (description exp) then s3 + 0.25 else s3.

Definition calculateWorkExperienceCompleteness (rows : list ExperienceRow)
    (userId : string) : CompletenessScore :=
  let experiences := filter (fun e => String.eqb (ex_user e) userId) rows in
  match experiences with
  | [] => mkCompleteness "work_experience" 0 Template ["work_experiences"]
  | _ :: _ =>
      let totalScore :=
        fold_left (fun acc exp => acc + expScore exp) experiences 0 in
      let score := totalScore / INR (length experiences) in
      let strategy := determineStrategy score in
      let missingFields :=
        if Rlt_dec score 0.8 then ["incomplete_fields"] else [] in
      mkCompleteness "work_experience" score strategy missingFields
  end.

(** Rows of [skills]; only their number is read. *)
Record SkillRow : Type := mkSkill {
  sk_user : string;
  skill_name : string
}.

Definition calculateSkillsCompleteness (rows : list SkillRow)
    (userId : string) : CompletenessScore :=
  let skills := filter (fun r => String.eqb (sk_user r) userId) rows in
  match skills with
  | [] => mkCompleteness "skills" 0 Template ["skills"]
  | _ :: _ =>
      let targetCount := 8%nat in
      let score := Rmin (INR (length skills) / INR targetCount) 1.0 in
      let strategy := determineStrategy score in
      let missingFields :=
        if (length skills <? targetCount)%nat then ["more_skills"] else [] in
      mkCompleteness "skills" score strategy missingFields
  end.

(** Rows of [stories]. *)
Record StoryRow : Type := mkStory {
  st_user : string;
  opener : option string;
  narrative_paragraphs : option (list string);
  quote : option string;
  quote_attribution : option string
}.

(** [.single()]: the row when exactly one matches; otherwise [data] is
    [null] (the error is not read). *)
Definition single {A : Type} (rows : list A) : option A :=
  match rows with
  | [r] => Some r
  | _ => None
  end.

Definition has_narrative (st : StoryRow) : bool :=
  match narrative_paragraphs st with
  | Some (_ :: _) => true
  | _ => false
  end.

Definition calculateStoryCompleteness (rows : list StoryRow)
    (userId : string) : CompletenessScore :=
  match single (filter (fun r => String.eqb (st_user r) userId) rows) with
  | None => mkCompleteness "story" 0 Qualitative ["story"]
  | Some story =>
      let '(score1, m1) :=
        if truthy_str (opener story) then (0 + 0.3, [])
        else (0, ["opener"]) in
      let '(score2, m2) :=
        if has_narrative story then (score1 + 0.4, m1)
        else (score1, (m1 ++ ["narrative"])%list) in
      let '(score3, m3) :=
        if truthy_str (quote story) then (score2 + 0.3, m2)
        else (score2, (m2 ++ ["quote"])%list) in
      mkCompleteness "story" score3 (determineStrategy score3) m3
  end.

(** [[...new Set(xs)]]: first occurrences, in order. *)
Fixpoint dedup (xs : list string) : list string :=
  match xs with
  | [] => []
  | x :: rest => x :: filter (fun y => negb (String.eqb x y)) (dedup rest)
  end.

(** [.filter(Boolean)] on optional strings. *)
Fixpoint filter_truthy (xs : list (option string)) : list string :=
  match xs with
  | [] => []
  | Some c :: rest =>
      if truthy_str (Some c) then c :: filter_truthy rest else filter_truthy rest
  | None :: rest => filter_truthy rest
  end.

(** Rows of [company_assets]. *)
Record CompanyAssetRow : Type := mkCompanyAsset {
  ca_company_id : string;
  ca_asset_id : string;
  is_primary : bool
}.

Definition calculateLogosCompleteness (exps : list ExperienceRow)
    (links : list CompanyAssetRow) (userId : string) : CompletenessScore :=
  let mine := filter (fun e => String.eqb (ex_user e) userId) exps in
  let companyIds := dedup (filter_truthy (map company_id mine)) in
  match companyIds with
  | [] => mkCompleteness "logos" 0 Hide ["companies"]
  | _ :: _ =>
      let logoLinks :=
        filter (fun l => existsb (String.eqb (ca_company_id l)) companyIds) links in
      let withLogos := dedup (map ca_company_id logoLinks) in
      let score := INR (length withLogos) / INR (length companyIds) in
      let strategy := determineStrategy score in
      let missingFields := if Rlt_dec score 1.0 then ["logos"] else [] in
      mkCompleteness "logos" score strategy missingFields
  end.


(** Rows of [completeness]. The update of [saveCompletenessScore] is
    addressed by [existing.id], the id of the one row of
    [(userId, section)]; rows are identified here by that pair. *)
Record CompletenessRow : Type := mkCompletenessRow {
  cr_user : string;
  cr_section : string;
  cr_score : R;
  cr_strategy : Strategy;
  cr_missing_fields : list string
}.

Definition row_matches (userId sec : string) (r : CompletenessRow) : bool :=
  String.eqb (cr_user r) userId && String.eqb (cr_section r) sec.

Definition saveCompletenessScore (userId : string) (scoreData : CompletenessScore)
    (tbl : list CompletenessRow) : list CompletenessRow :=
  match single (filter (row_matches userId (section scoreData)) tbl) with
  | Some _ =>
      map (fun r =>
             if row_matches userId (section scoreData) r
             then mkCompletenessRow (cr_user r) (cr_section r) (cs_score scoreData)
                    (strategy scoreData) (missingFields scoreData)
             else r) tbl
  | None =>
      (tbl ++ [mkCompletenessRow userId (section scoreData) (cs_score scoreData)
                 (strategy scoreData) (missingFields scoreData)])%list
  end.

(** [calculateAllCompleteness]: the six sections in order, each saved.
    The section functions read the rows passed to them. *)
Definition calculateAllCompleteness (s : Store) (placements : list PlacementRow)
    (exps : list ExperienceRow) (links : list CompanyAssetRow)
    (skills : list SkillRow) (stories : list StoryRow) (userId : string)
    (tbl : list CompletenessRow) : list CompletenessScore * list CompletenessRow :=
  let scores :=
    [calculateImagesCompleteness placements userId;
     calculateAchievementsCompleteness s userId;
     calculateLogosCompleteness exps links userId;
     calculateWorkExperienceCompleteness exps userId;
     calculateSkillsCompleteness skills userId;
     calculateStoryCompleteness stories userId] in
  (scores, fold_left (fun t scoreData => saveCompletenessScore userId scoreData t)
             scores tbl).

(** The row [saveCompletenessScore] leaves for [(userId, section)]. *)
Definition row_of (userId : string) (sd : CompletenessScore) : CompletenessRow :=
  mkCompletenessRow userId (section sd) (cs_score sd) (strategy sd) (missingFields sd).

(** The update applied by [saveCompletenessScore] to each row. *)
Definition update_row (userId : string) (scoreData : CompletenessScore)
    (r : CompletenessRow) : CompletenessRow :=
  if row_matches userId (section scoreData) r
  then mkCompletenessRow (cr_user r) (cr_section r) (cs_score scoreData)
         (strategy scoreData) (missingFields scoreData)
  else r.

(** A sum of per-row scores, as the [reduce] of the work-experience score. *)
Definition sumR {A : Type} (f : A -> R) (l : list A) : R :=
  fold_right (fun x acc => f x + acc) 0 l.


(* ------------------------------------------------------------------ *)
(** ** The other worker jobs ([pipeline.worker.ts]) *)

(** A job that records its status: [running], then the body, then
    [succeeded], or [failed] with the message of the error the body
    throws (the job then rethrows it). The body gets the store with
    [running] recorded and returns the store it leaves, with the
    message of its error if it throws. *)
Definition processStep (name : string) (body : Store -> Store * option string)
    (userId : string) (s : Store) : Store :=
  let s1 := updatePipelineStatus userId name "running" None s in
  let (s2, err) := body s1 in
  match err with
  | None => updatePipelineStatus userId name "succeeded" None s2
  | Some msg => updatePipelineStatus userId name "failed" (Some msg) s2
  end.

(** [pipelineQueue.process('ingest', ...)]; [runIngestPipeline] is a
    parameter. *)
Definition ingestJob
    (runIngestPipeline : string -> string -> Store -> Store * option string)
    (userId : string) (documentId : option string) (s : Store) : Store :=
  processStep "ingest"
    (fun s1 =>
       match documentId with
       | Some d =>
           if truthy_str (Some d) then runIngestPipeline userId d s1
           else (s1, Some "Document ID is required for ingest pipeline")
       | None => (s1, Some "Document ID is required for ingest pipeline")
       end) userId s.

(** [pipelineQueue.process('images', ...)]: [portrait] is the
    [storage_url] of the user's latest [portrait_src] asset, if any;
    [generateProfessionalImages] is a parameter. *)
Definition imagesJob
    (generateProfessionalImages :
       string -> string -> option string -> Store -> Store * option string)
    (portrait : option string) (userId : string) (siteVersionId : option string)
    (s : Store) : Store :=
  processStep "images"
    (fun s1 =>
       match portrait with
       | Some url => generateProfessionalImages userId url siteVersionId s1
       | None => (s1, Some "No portrait photo found for user")
       end) userId s.

(** The latest run of [(userId, step)]. *)
Definition latest_run (userId step : string) (runs : list PipelineRun)
    : option PipelineRun :=
  find (fun r => String.eqb (run_user r) userId && String.eqb (pipeline_name r) step)
    runs.

(* ------------------------------------------------------------------ *)
(** ** [getPipelineStatus] ([pipeline.controller.ts]) *)

(** The [statusMap] loop: the first run of each [pipeline_name], in the
    order the names first appear; [seen] holds the map's keys. *)
Fixpoint latest_per_name (seen : list string) (runs : list PipelineRun)
    : list PipelineRun :=
  match runs with
  | [] => []
  | r :: rest =>
      if existsb (String.eqb (pipeline_name r)) seen
      then latest_per_name seen rest
      else r :: latest_per_name (pipeline_name r :: seen) rest
  end.

(** The user's runs newest first, one per step, and the overall status. *)
Definition getPipelineStatus (runs : list PipelineRun) (userId : string)
    : list PipelineRun * string :=
  let data := filter (fun r => String.eqb (run_user r) userId) runs in
  let statuses := latest_per_name [] data in
  (statuses, calculateOverallStatus statuses).

(** The runs of [(userId, step)], as selected by the status update. *)
Definition run_key (userId step : string) (r : PipelineRun) : bool :=
  String.eqb (run_user r) userId && String.eqb (pipeline_name r) step.

(** The runs of every other (user, step). *)
Definition other_runs (u step : string) (runs : list PipelineRun)
    : list PipelineRun :=
  filter (fun r => negb (run_key u step r)) runs.


(* ------------------------------------------------------------------ *)
(** ** Saving company logos ([fetchAndSaveCompanyLogo], [runLogoPipeline]) *)

Record AssetRow : Type := mkAsset {
  as_id : string;
  kind : string;
  storage_url : string;
  label : string;
  as_source : string
}.

(** The storage bucket [assets] and the tables [assets] and
    [company_assets], as written by the logo pipeline. *)
Record LogoStore : Type := mkLogoStore {
  stored_files : list string;
  assets : list AssetRow;
  company_assets : list CompanyAssetRow
}.

(** How the calls of one [fetchAndSaveCompanyLogo] end: the download
    ([None] when [axios.get] throws, otherwise the [content-type] header),
    the upload and the two inserts (an error or not), [Date.now()], the id
    the database gives the new asset, and the public URL of a stored file. *)
Record SaveEnv : Type := mkSaveEnv {
  download : string -> option (option string);
  upload_ok : bool;
  asset_insert_ok : bool;
  link_insert_ok : bool;
  save_now : Z;
  new_asset_id : string;
  getPublicUrl : string -> string
}.

(** [upload] with [upsert: true]: the path is stored once. *)
Definition upload_file (fileName : string) (files : list string) : list string :=
  if existsb (String.eqb fileName) files then files else (files ++ [fileName])%list.

(** Stages 1-3 of [fetchAndSaveCompanyLogo]: [logoUrl] and [source] as
    left by the three [if]s. *)
Definition select_logo (env : LogoEnv) (companyName : string) : option string * string :=
  let logoUrl1 := fst (tryBrandfetch env companyName) in
  let '(logoUrl2, source2) :=
    if truthy_str logoUrl1 then (logoUrl1, "brandfetch")
    else (fst (tryLogoDev env companyName), "logo.dev") in
  if truthy_str logoUrl2 then (logoUrl2, source2)
  else (fst (generateWithIdeogram env companyName), "ideogram").

(** [fetchAndSaveCompanyLogo]: [(success, source)] and the store. Every
    error thrown after the selection is caught and ends in
    [{ success: false }]; nothing written before it is undone. *)
Definition fetchAndSaveCompanyLogo (env : LogoEnv) (senv : SaveEnv)
    (companyId companyName : string) (ls : LogoStore)
    : (bool * option string) * LogoStore :=
  let '(logoUrl, source) := select_logo env companyName in
  match truthy_field logoUrl with
  | None => ((false, None), ls)
  | Some url =>
      match download senv url with
      | None => ((false, None), ls)
      | Some header =>
          let contentType :=
            match truthy_field header with
            | Some c => c
            | None => "image/svg+xml"
            end in
          let ext := if includes contentType "svg" then "svg" else "png" in
          let fileName :=
            "logos/" ++ companyId ++ "/" ++ string_of_Z (save_now senv) ++ "." ++ ext in
          if negb (upload_ok senv) then ((false, None), ls) else
          let ls1 := mkLogoStore (upload_file fileName (stored_files ls))
                       (assets ls) (company_assets ls) in
          if negb (asset_insert_ok senv) then ((false, None), ls1) else
          let asset := mkAsset (new_asset_id senv)
                         (if String.eqb ext "svg" then "logo_svg" else "logo_png")
                         (getPublicUrl senv fileName) (companyName ++ " Logo") source in
          let ls2 := mkLogoStore (stored_files ls1) (assets ls1 ++ [asset])%list
                       (company_assets ls1) in
          if negb (link_insert_ok senv) then ((false, None), ls2) else
          ((true, Some source),
           mkLogoStore (stored_files ls2) (assets ls2)
             (company_assets ls2 ++ [mkCompanyAsset companyId (new_asset_id senv) true])%list)
      end
  end.

(** A row of [work_experiences] with its joined [companies(id, canonical_name)]. *)
Record WorkExpJoin : Type := mkWorkExpJoin {
  wj_user : string;
  wj_company_id : option string;
  wj_company : option (string * string)
}.

(** [Map.prototype.set] on an insertion-ordered map. *)
Fixpoint map_set (k v : string) (m : list (string * string)) : list (string * string) :=
  match m with
  | [] => [(k, v)]
  | (k', v') :: rest =>
      if String.eqb k' k then (k, v) :: rest else (k', v') :: map_set k v rest
  end.

(** The [companies] map of [runLogoPipeline]. *)
Definition collect_companies (workExps : list WorkExpJoin) : list (string * string) :=
  fold_left (fun m exp =>
    match wj_company exp with
    | Some (cid, name) => if truthy_str (wj_company_id exp) then map_set cid name m else m
    | None => m
    end) workExps [].

(** The rows [.from('company_assets').eq('company_id', companyId)]. *)
Definition links_of (companyId : string) (l : list CompanyAssetRow) : list CompanyAssetRow :=
  filter (fun r => String.eqb (ca_company_id r) companyId) l.

(** The body of the [for] loop of [runLogoPipeline]. [.maybeSingle()]
    gives data only for exactly one row (more rows are an error, with
    [data] null), as [single]. *)
Definition process_company (env : LogoEnv) (senv : string -> SaveEnv)
    (ls : LogoStore) (entry : string * string) : LogoStore :=
  let '(companyId, companyName) := entry in
  match single (links_of companyId (company_assets ls)) with
  | Some _ => ls
  | None => snd (fetchAndSaveCompanyLogo env (senv companyId) companyId companyName ls)
  end.

(** [runLogoPipeline]; [senv c] is how the save of company [c] ends. *)
Definition runLogoPipeline (env : LogoEnv) (senv : string -> SaveEnv)
    (workExpRows : list WorkExpJoin) (userId : string) (ls : LogoStore) : LogoStore :=
  let workExps := filter (fun e => String.eqb (wj_user e) userId) workExpRows in
  match workExps with
  | [] => ls
  | _ :: _ => fold_left (process_company env senv) (collect_companies workExps) ls
  end.

(* ================================================================== *)
(** * Theorems *)

(** ** JavaScript number lemmas *)

Lemma js_log_pos (r : R) : 0 < r -> js_log (JFin r) = JFin (ln r).
Proof. intros H; simpl; destruct (Rlt_dec 0 r); [reflexivity | contradiction]. Qed.

Lemma js_log_neg (r : R) : r < 0 -> js_log (JFin r) = JNaN.
Proof.
  intros H; simpl; destruct (Rlt_dec 0 r); [lra|].
  destruct (Req_dec_T r 0); [lra | reflexivity].
Qed.

Lemma js_div_fin (a b : R) : b <> 0 -> js_div (JFin a) (JFin b) = JFin (a / b).
Proof. intros H; simpl; destruct (Req_dec_T b 0); [contradiction | reflexivity]. Qed.

Lemma truthy_num_nonzero (r : R) : r <> 0 -> truthy_num (Some r) = true.
Proof. intros H; simpl; destruct (Req_dec_T r 0); [contradiction | reflexivity]. Qed.

Lemma ln_101_pos : 0 < ln 101.
Proof. rewrite <- ln_1; apply ln_increasing; lra. Qed.

Lemma clamp_bounds (x : jsnum) (m : R) :
  js_max (JFin 0.3) (js_min x (JFin 1.0)) = JFin m -> 0.3 <= m <= 1.
Proof.
  destruct x as [r| | |]; simpl; intros H; inversion H; subst; clear H.
  - unfold Rmax, Rmin; repeat destruct Rle_dec; lra.
  - unfold Rmax; destruct Rle_dec; lra.
  - lra.
Qed.

Lemma metric_strength_bounds (v : option R) (u : option string) (m : R) :
  calculateMetricStrength v u = JFin m -> 0.3 <= m <= 1.
Proof.
  unfold calculateMetricStrength.
  destruct v as [v|], u as [u|]; try (intros H; inversion H; lra).
  destruct (Req_dec_T v 0); [intros H; inversion H; lra|].
  destruct (String.eqb u ""); [intros H; inversion H; lra|].
  apply clamp_bounds.
Qed.

Ltac split_ifs :=
  repeat match goal with
         | |- context [if ?b then _ else _] => destruct b
         end.

Lemma scope_size_bounds (s : option string) :
  0.5 <= calculateScopeSize s <= 1.
Proof.
  unfold calculateScopeSize; destruct s as [[|c s]|]; split_ifs; lra.
Qed.

Lemma evidence_strength_bounds (a : Achievement) :
  0.5 <= calculateEvidenceStrength a <= 1.
Proof.
  unfold calculateEvidenceStrength.
  destruct (raw_text a); split_ifs; unfold Rmin; split_ifs; lra.
Qed.

(** ** Scoring engine *)

Lemma norm_max_percent : norm_max (toLowerCase "percent") = Some 100.
Proof. reflexivity. Qed.

(** [4^10 > 101^3] and [4^16 < 101^5] place [log 4 / log 101] in
    [(0.3, 0.3125)]. *)
Lemma ln4_over_ln101_bounds : 0.3 < ln 4 / ln 101 < 0.3125.
Proof.
  pose proof ln_101_pos as H101.
  assert (H1 : 3 * ln 101 < 10 * ln 4).
  { replace (3 * ln 101) with (INR 3 * ln 101) by (simpl; ring).
    replace (10 * ln 4) with (INR 10 * ln 4) by (simpl; ring).
    rewrite <- !ln_pow by lra.
    apply ln_increasing; simpl; lra. }
  assert (H2 : 16 * ln 4 < 5 * ln 101).
  { replace (5 * ln 101) with (INR 5 * ln 101) by (simpl; ring).
    replace (16 * ln 4) with (INR 16 * ln 4) by (simpl; ring).
    rewrite <- !ln_pow by lra.
    apply ln_increasing; simpl; lra. }
  split; apply (Rmult_lt_reg_r (ln 101)); try lra;
    unfold Rdiv; rewrite Rmult_assoc, Rinv_l, Rmult_1_r by lra; lra.
Qed.

Lemma metric_strength_percent_3 :
  calculateMetricStrength (Some 3) (Some "percent") = JFin (ln 4 / ln 101).
Proof.
  pose proof ln4_over_ln101_bounds.
  unfold calculateMetricStrength.
  destruct (Req_dec_T 3 0); [lra|].
  change (String.eqb "percent" "") with false; cbv beta iota zeta.
  rewrite norm_max_percent; unfold js_plus_one.
  rewrite !js_log_pos by lra.
  rewrite js_div_fin
    by (pose proof ln_101_pos; replace (100 + 1) with 101 by lra; lra).
  replace (3 + 1) with 4 by lra; replace (100 + 1) with 101 by lra.
  simpl js_min; simpl js_max.
  rewrite Rmin_left by lra. rewrite Rmax_right by lra. reflexivity.
Qed.

Lemma evidence_strength_percent_3 :
  calculateEvidenceStrength (with_metric "a1" 3 "percent") = 0.8.
Proof.
  unfold calculateEvidenceStrength.
  cbn [metric_value metric_unit scope raw_text with_metric].
  rewrite truthy_num_nonzero by lra. simpl truthy_str. cbv beta iota zeta.
  simpl andb; cbv beta iota. rewrite Rmin_left by lra. lra.
Qed.

(** C1 (counterexample). An achievement with metric [3 percent], no scope
    and no text: its weighted sum is [0.4 * log 4 / log 101 + 0.39], about
    [0.51015], while the score returned is [0.51], the sum rounded to two
    decimals. *)
Lemma score_differs_from_weighted_sum :
  calculateAchievementScore (with_metric "a1" 3 "percent")
  <> weightedSum (with_metric "a1" 3 "percent").
Proof.
  pose proof ln4_over_ln101_bounds as Hb.
  unfold calculateAchievementScore, weightedSum.
  cbn [metric_value metric_unit scope with_metric].
  rewrite metric_strength_percent_3, evidence_strength_percent_3.
  change (calculateScopeSize None) with 0.5.
  simpl js_add; simpl js_mul; simpl js_round.
  rewrite js_div_fin by lra.
  set (m := ln 4 / ln 101) in *.
  assert (Hk : 51%Z = Int_part ((m * 0.4 + 0.5 * 0.3 + 0.8 * 0.3) * 100 + / 2)).
  { apply Int_part_spec; lra. }
  rewrite <- Hk. intros H; inversion H. lra.
Qed.

(** C1 (amended). Whenever the metric strength is a finite number [m],
    the score is [Math.round(w * 100) / 100] for the weighted sum
    [w = 0.4 m + 0.3 scopeSize + 0.3 evidenceStrength]: it lies in
    [[0.42, 1]], within [[0, 1]], and differs from [w] by at most
    [0.005]. *)
Theorem score_is_rounded_weighted_sum (a : Achievement) (m : R)
  (Hm : calculateMetricStrength (metric_value a) (metric_unit a) = JFin m) :
  let w := m * 0.4 + calculateScopeSize (scope a) * 0.3
           + calculateEvidenceStrength a * 0.3 in
  let s := IZR (Int_part (w * 100 + / 2)) / 100 in
  weightedSum a = JFin w /\
  calculateAchievementScore a = JFin s /\
  0.42 <= s <= 1 /\ Rabs (s - w) <= / 200.
Proof.
  intros w s.
  assert (HW : weightedSum a = JFin w).
  { unfold weightedSum; rewrite Hm; reflexivity. }
  split; [exact HW|].
  split.
  { unfold calculateAchievementScore; rewrite HW; simpl js_mul; simpl js_round.
    apply js_div_fin; lra. }
  pose proof (metric_strength_bounds _ _ _ Hm) as Hmb.
  pose proof (scope_size_bounds (scope a)) as Hs.
  pose proof (evidence_strength_bounds a) as He.
  assert (Hw : 0.42 <= w <= 1) by (unfold w; lra).
  destruct (base_Int_part (w * 100 + / 2)) as [Hk1 Hk2].
  set (k := Int_part (w * 100 + / 2)) in *.
  assert (Hlo : (42 <= k)%Z).
  { assert (H41 : (41 < k)%Z) by (apply lt_IZR; lra). lia. }
  assert (Hhi : (k <= 100)%Z).
  { assert (H101 : (k < 101)%Z) by (apply lt_IZR; lra). lia. }
  apply IZR_le in Hlo; apply IZR_le in Hhi.
  unfold s; split; [split; lra|].
  apply Rabs_le; split; lra.
Qed.

Lemma score_is_rounded_weighted_sum_witness :
  let a := plain_achievement "a1" "Led the platform team" in
  calculateMetricStrength (metric_value a) (metric_unit a) = JFin 0.3 /\
  (let w := 0.3 * 0.4 + calculateScopeSize (scope a) * 0.3
            + calculateEvidenceStrength a * 0.3 in
   let s := IZR (Int_part (w * 100 + / 2)) / 100 in
   weightedSum a = JFin w /\
   calculateAchievementScore a = JFin s /\
   0.42 <= s <= 1 /\ Rabs (s - w) <= / 200).
Proof.
  intros a. split; [reflexivity|].
  apply (score_is_rounded_weighted_sum a 0.3). reflexivity.
Defined.

(** C2 (failing input). A metric value below [-1] with a known unit:
    [Math.log(value + 1)] is [NaN], [Math.max(0.3, NaN)] is [NaN], so the
    metric strength is [NaN] rather than a value [>= 0.3], and the score
    of the achievement is [NaN] as well. *)
Theorem negative_metric_strength_is_nan :
  calculateMetricStrength (Some (-5)) (Some "percent") = JNaN /\
  calculateAchievementScore (with_metric "a1" (-5) "percent") = JNaN.
Proof.
  assert (H : calculateMetricStrength (Some (-5)) (Some "percent") = JNaN).
  { unfold calculateMetricStrength.
    destruct (Req_dec_T (-5) 0); [lra|].
    change (String.eqb "percent" "") with false; cbv beta iota zeta.
    rewrite js_log_neg by lra. reflexivity. }
  split; [exact H|].
  unfold calculateAchievementScore, weightedSum.
  cbn [metric_value metric_unit scope with_metric]. rewrite H. reflexivity.
Qed.

(** C10. When the metric value is [0] or absent, or the unit is absent or
    empty, the metric strength is exactly [0.3], the evidence bonus for a
    metric is not given, and the evidence strength and the score are those
    of the same achievement with no metric at all. *)
Theorem falsy_metric_scored_as_absent (a : Achievement)
  (H : metric_value a = Some 0 \/ metric_value a = None \/
       metric_unit a = None \/ metric_unit a = Some "") :
  calculateMetricStrength (metric_value a) (metric_unit a) = JFin 0.3 /\
  (truthy_num (metric_value a) && truthy_str (metric_unit a))%bool = false /\
  calculateEvidenceStrength a = calculateEvidenceStrength (strip_metric a) /\
  calculateAchievementScore a = calculateAchievementScore (strip_metric a).
Proof.
  assert (HM : calculateMetricStrength (metric_value a) (metric_unit a) = JFin 0.3).
  { unfold calculateMetricStrength.
    destruct H as [H|[H|[H|H]]]; rewrite H;
      [destruct (metric_unit a) | | destruct (metric_value a)
      | destruct (metric_value a)]; try reflexivity;
      destruct (Req_dec_T _ _); try reflexivity; congruence. }
  assert (HT : (truthy_num (metric_value a) && truthy_str (metric_unit a))%bool
               = false).
  { destruct H as [H|[H|[H|H]]]; rewrite H; simpl.
    all: try reflexivity; try (destruct (truthy_num _); reflexivity).
    destruct (Req_dec_T 0 0); [reflexivity | congruence]. }
  assert (HE : calculateEvidenceStrength a
               = calculateEvidenceStrength (strip_metric a)).
  { unfold calculateEvidenceStrength. rewrite HT. reflexivity. }
  split; [exact HM|]. split; [exact HT|]. split; [exact HE|].
  unfold calculateAchievementScore, weightedSum.
  rewrite HM, <- HE. reflexivity.
Qed.

Lemma falsy_metric_scored_as_absent_witness :
  let a := with_metric "a1" 0 "percent" in
  (metric_value a = Some 0 \/ metric_value a = None \/
   metric_unit a = None \/ metric_unit a = Some "") /\
  calculateMetricStrength (metric_value a) (metric_unit a) = JFin 0.3 /\
  (truthy_num (metric_value a) && truthy_str (metric_unit a))%bool = false /\
  calculateEvidenceStrength a = calculateEvidenceStrength (strip_metric a) /\
  calculateAchievementScore a = calculateAchievementScore (strip_metric a).
Proof.
  intros a. split; [left; reflexivity|].
  apply falsy_metric_scored_as_absent. left; reflexivity.
Defined.

Section StableSortFacts.
Context {A : Type}.

Lemma insert_stable_perm (keep : A -> A -> bool) (x : A) (l : list A) :
  Permutation (insert_stable keep x l) (x :: l).
Proof.
  induction l as [|y l IH]; simpl; [reflexivity|].
  destruct (keep x y); [reflexivity|].
  rewrite IH. apply perm_swap.
Qed.

Lemma sort_stable_perm (keep : A -> A -> bool) (l : list A) :
  Permutation (sort_stable keep l) l.
Proof.
  induction l as [|x l IH]; simpl; [reflexivity|].
  rewrite insert_stable_perm, IH. reflexivity.
Qed.



Variable f : A -> R.








End StableSortFacts.


(** ** Ranking and top-N selection *)




Lemma assign_ranks_length (k : nat) (l : list ScoredAchievement) :
  length (assign_ranks k l) = length l.
Proof.
  revert k; induction l as [|x l IH]; intros k; simpl; [reflexivity|].
  rewrite IH; reflexivity.
Qed.


Lemma assign_ranks_nth (k i : nat) (l : list ScoredAchievement)
    (x : ScoredAchievement) :
  nth_error (assign_ranks k l) i = Some x ->
  rank x = S (k + i) /\
  exists y, nth_error l i = Some y /\ sa x = sa y /\ score x = score y.
Proof.
  revert k i; induction l as [|y l IH]; intros k i H; [destruct i; discriminate|].
  destruct i as [|i]; simpl in H.
  - inversion H; subst. split; [simpl; lia|].
    exists y; simpl; auto.
  - destruct (IH (S k) i H) as [Hr Hy]. split; [rewrite Hr; lia|].
    exact Hy.
Qed.

Lemma assign_ranks_in (k : nat) (l : list ScoredAchievement)
    (x : ScoredAchievement) :
  In x (assign_ranks k l) ->
  exists y, In y l /\ sa x = sa y /\ score x = score y.
Proof.
  intros H. destruct (In_nth_error _ _ H) as [i Hi].
  destruct (assign_ranks_nth _ _ _ _ Hi) as [_ [y [Hy [Hsa Hsc]]]].
  exists y. split; [eapply nth_error_In; exact Hy | auto].
Qed.


Lemma score_all_in (l : list Achievement) (x : ScoredAchievement) :
  In x (score_all l) -> In (sa x) l /\ score x = calculateAchievementScore (sa x).
Proof.
  unfold score_all. intros H. apply in_map_iff in H.
  destruct H as [a [<- Ha]]. simpl. auto.
Qed.


Lemma rankAchievements_length (l : list Achievement) :
  length (rankAchievements l) = length l.
Proof.
  unfold rankAchievements. rewrite assign_ranks_length.
  rewrite (Permutation_length (sort_stable_perm _ _)).
  unfold score_all. apply length_map.
Qed.


(** C4. The top selection has at most [min(6, length)] items (exactly
    that many) and is a prefix of the ranked list. *)
Theorem selectTop_prefix_of_rank (l : list Achievement) :
  (length (selectTop l) <= Nat.min 6 (length l))%nat /\
  length (selectTop l) = Nat.min 6 (length l) /\
  exists rest, rankAchievements l = (selectTop l ++ rest)%list.
Proof.
  unfold selectTop, topCount.
  rewrite length_firstn, rankAchievements_length.
  split; [lia|]. split; [reflexivity|].
  exists (skipn 6 (rankAchievements l)). symmetry. apply firstn_skipn.
Qed.






(** C5. [determineStrategy] picks its bucket by thresholds checked from
    the highest down: at least 0.9 gives complete, at least 0.7 polish,
    at least 0.5 context, at least 0.3 qualitative, above 0 template,
    and 0 (or below) hide; hence a larger score never gets a lower
    bucket in the order complete > polish > context > qualitative >
    template > hide. *)
Theorem determineStrategy_thresholds_monotone :
  (forall s, s >= 0.9 -> determineStrategy s = Complete) /\
  (forall s, 0.7 <= s < 0.9 -> determineStrategy s = Polish) /\
  (forall s, 0.5 <= s < 0.7 -> determineStrategy s = Context) /\
  (forall s, 0.3 <= s < 0.5 -> determineStrategy s = Qualitative) /\
  (forall s, 0 < s < 0.3 -> determineStrategy s = Template) /\
  (forall s, s <= 0 -> determineStrategy s = Hide) /\
  (forall a b, a > b ->
     (strategy_rank (determineStrategy b) <= strategy_rank (determineStrategy a))%nat).
Proof.
  unfold determineStrategy.
  split; [|split; [|split; [|split; [|split; [|split]]]]];
    intros; repeat match goal with
                   | |- context [Rge_dec ?x ?y] => destruct (Rge_dec x y)
                   | |- context [Rgt_dec ?x ?y] => destruct (Rgt_dec x y)
                   end; simpl; first [reflexivity | lia | lra].
Qed.

(** C7, counterexample: for an empty list of pipeline runs the code
    answers [not_started], not the [completed] that the precedence rule
    gives when every (that is, no) step has succeeded. *)
Lemma overall_status_empty_differs :
  calculateOverallStatus [] <> spec_overall_status [].
Proof. simpl. discriminate. Qed.

(** C7 (amended). For a nonempty list of runs, [calculateOverallStatus]
    follows the precedence running, then failed, then all succeeded
    (completed), else pending; for the empty list it returns
    [not_started]. *)
Theorem overall_status_precedence (pipelines : list PipelineRun) :
  calculateOverallStatus pipelines
  = match pipelines with
    | [] => "not_started"
    | _ :: _ => spec_overall_status pipelines
    end.
Proof. destruct pipelines; reflexivity. Qed.

Lemma update_latest_run_status (u st0 st : string) (err : option string)
    (runs runs' : list PipelineRun) :
  update_latest_run u st0 st err runs = Some runs' ->
  latest_status u st0 runs' = Some st.
Proof.
  revert runs'; induction runs as [|r rs IH]; intros runs' H; simpl in H;
    [discriminate|].
  destruct (String.eqb (run_user r) u && String.eqb (pipeline_name r) st0)%bool
    eqn:E.
  - inversion H; subst. simpl. rewrite E. reflexivity.
  - destruct (update_latest_run u st0 st err rs) as [rs'|] eqn:E2;
      simpl in H; [|discriminate].
    inversion H; subst. simpl. rewrite E. apply IH. reflexivity.
Qed.

Lemma updatePipelineStatus_latest (u st0 st : string) (err : option string)
    (s : Store) :
  latest_status u st0 (pipeline_runs (updatePipelineStatus u st0 st err s))
  = Some st.
Proof.
  unfold updatePipelineStatus; simpl.
  destruct (update_latest_run u st0 st err (pipeline_runs s)) eqn:E.
  - eapply update_latest_run_status; exact E.
  - simpl. rewrite !String.eqb_refl. reflexivity.
Qed.

Lemma filter_none {A : Type} (p : A -> bool) (l : list A) :
  forallb (fun x => negb (p x)) l = true -> filter p l = [].
Proof.
  induction l as [|x l IH]; simpl; [reflexivity|].
  intros H; apply andb_true_iff in H as [H1 H2].
  destruct (p x); [discriminate|]. apply IH; exact H2.
Qed.

Lemma achievements_completeness_empty (s : Store) (u : string) :
  no_linked_achievements s u = true ->
  cs_score (calculateAchievementsCompleteness s u) = 0 /\
  strategy (calculateAchievementsCompleteness s u) = Template.
Proof.
  intros H. unfold calculateAchievementsCompleteness.
  destruct (filter (fun we => String.eqb (we_user we) u) (work_experiences s))
    as [|we0 wes] eqn:Ewe; [split; reflexivity|].
  rewrite filter_none; [split; reflexivity|].
  unfold no_linked_achievements in H.
  rewrite forallb_forall in H |- *. intros a Ha. specialize (H a Ha).
  destruct (work_experience_id a) as [w|]; [|reflexivity].
  apply negb_true_iff in H. apply negb_true_iff.
  apply not_true_iff_false. intros Hex. apply existsb_exists in Hex.
  destruct Hex as [wid [Hin Heq]]. apply String.eqb_eq in Heq; subst wid.
  rewrite <- Ewe in Hin. apply in_map_iff in Hin.
  destruct Hin as [we [Hid Hwe]]. apply filter_In in Hwe as [Hwe Hu].
  apply not_true_iff_false in H. apply H. apply existsb_exists.
  exists we. split; [exact Hwe|]. rewrite Hu, Hid. simpl. apply String.eqb_refl.
Qed.

(** C6 (amended). For a user who owns no achievement (and none linked
    to the user's work experiences), the achievements job ends with the
    latest run of the step at [succeeded], leaves the achievements and
    the stored ranking snapshots untouched (the pipeline returns before
    saving, so no snapshot is written), and the completeness of the
    achievements section has score 0 with strategy template. *)
Theorem zero_achievements_step_and_completeness (gen : string -> option string)
  (s : Store) (u : string)
  (Hown : no_achievements_of s u = true)
  (Hlinked : no_linked_achievements s u = true) :
  let s' := achievementsJob gen u s in
  latest_status u "achievements" (pipeline_runs s') = Some "succeeded" /\
  achievement_rankings s' = achievement_rankings s /\
  achievements s' = achievements s /\
  cs_score (calculateAchievementsCompleteness s' u) = 0 /\
  strategy (calculateAchievementsCompleteness s' u) = Template.
Proof.
  intros s'.
  assert (Hrun : runAchievementsPipeline gen u
                   (updatePipelineStatus u "achievements" "running" None s)
                 = updatePipelineStatus u "achievements" "running" None s).
  { unfold runAchievementsPipeline. simpl achievements.
    rewrite filter_none; [reflexivity|]. exact Hown. }
  assert (Hs' : s' = updatePipelineStatus u "achievements" "succeeded" None
                      (updatePipelineStatus u "achievements" "running" None s)).
  { unfold s', achievementsJob. rewrite Hrun. reflexivity. }
  clearbody s'. subst s'.
  split; [apply updatePipelineStatus_latest|].
  split; [reflexivity|]. split; [reflexivity|].
  apply achievements_completeness_empty. exact Hlinked.
Qed.

(** C6, counterexample: for a user with a work experience and no
    achievement, the job writes no ranking snapshot at all, and the
    completeness strategy of the achievements section is template, not
    hide. *)
Lemma zero_achievements_cex :
  let s' := achievementsJob (fun _ => None) "u9" store_no_achievements in
  strategy (calculateAchievementsCompleteness s' "u9") <> Hide /\
  achievement_rankings s' = [].
Proof. split; [discriminate | reflexivity]. Qed.

Lemma zero_achievements_step_and_completeness_witness :
  no_achievements_of store_no_achievements "u9" = true /\
  no_linked_achievements store_no_achievements "u9" = true /\
  (let s' := achievementsJob (fun _ => None) "u9" store_no_achievements in
   latest_status "u9" "achievements" (pipeline_runs s') = Some "succeeded" /\
   achievement_rankings s' = achievement_rankings store_no_achievements /\
   achievements s' = achievements store_no_achievements /\
   cs_score (calculateAchievementsCompleteness s' "u9") = 0 /\
   strategy (calculateAchievementsCompleteness s' "u9") = Template).
Proof.
  split; [reflexivity|]. split; [reflexivity|].
  apply zero_achievements_step_and_completeness; reflexivity.
Defined.

Lemma queue_steps_spec (now : nat -> Z) (u : string) (doc sv : option string)
    (steps : list PipelineStep) (q : QueueState) :
  let res := queue_steps now u doc sv steps q in
  length (fst res) = length steps /\
  add_calls (snd res) = (add_calls q ++ map (mkJobData u doc sv) steps)%list /\
  clock_reads (snd res) = (clock_reads q + length steps)%nat /\
  (forall k st, nth_error steps k = Some st ->
     nth_error (fst res) k
     = Some (make_job_id (mkJobData u doc sv st) (now (clock_reads q + k)%nat))).
Proof.
  revert q; induction steps as [|st rest IH]; intros q; cbn [queue_steps].
  - simpl. rewrite app_nil_r, Nat.add_0_r. split; [reflexivity|].
    split; [reflexivity|]. split; [reflexivity|].
    intros k st H; destruct k; discriminate.
  - destruct (queuePipelineStep now (mkJobData u doc sv st) q) as [jid q1] eqn:E1.
    unfold queuePipelineStep in E1. injection E1 as Ejid Eq1.
    assert (Hc1 : clock_reads q1 = S (clock_reads q)) by (subst q1; reflexivity).
    assert (Ha1 : add_calls q1 = (add_calls q ++ [mkJobData u doc sv st])%list)
      by (subst q1; reflexivity).
    clear Eq1.
    destruct (IH q1) as [H1 [H2 [H3 H4]]].
    destruct (queue_steps now u doc sv rest q1) as [ids q2] eqn:E.
    simpl in *. subst jid.
    split; [lia|].
    split; [rewrite H2, Ha1, <- app_assoc; reflexivity|].
    split; [rewrite H3, Hc1; lia|].
    intros k st' Hk. destruct k as [|k]; simpl in Hk |- *.
    + inversion Hk; subst. rewrite Nat.add_0_r. reflexivity.
    + rewrite (H4 k st' Hk), Hc1. do 3 f_equal. lia.
Qed.

(** C8. [queueFullPipeline] returns exactly seven job ids and calls
    [add] once per step in the order ingest, logos, achievements, story,
    skills, images, completeness (the code's names for ingest,
    logo-resolution, achievement-scoring, story, skill-offers,
    image-generation and completeness); the k-th id is the one built for
    the k-th step. *)
Theorem queueFullPipeline_seven_in_order (now : nat -> Z)
    (userId documentId : string) (sv : option string) (q : QueueState) :
  let res := queueFullPipeline now userId documentId sv q in
  length (fst res) = 7%nat /\
  add_calls (snd res)
  = (add_calls q ++
     map (mkJobData userId (Some documentId) sv)
       [StepIngest; StepLogos; StepAchievements; StepStory; StepSkills;
        StepImages; StepCompleteness])%list /\
  (forall k st, nth_error fullPipelineSteps k = Some st ->
     nth_error (fst res) k
     = Some (make_job_id (mkJobData userId (Some documentId) sv st)
               (now (clock_reads q + k)%nat))).
Proof.
  destruct (queue_steps_spec now userId (Some documentId) sv fullPipelineSteps q)
    as [H1 [H2 [_ H4]]].
  unfold queueFullPipeline.
  split; [exact H1|]. split; [exact H2|]. exact H4.
Qed.

Lemma provider_call_events (env : LogoEnv) (c : string) (p : Provider) :
  In (Tried p) (snd (provider_call env c p)) /\
  (forall e, In e (snd (provider_call env c p)) -> event_provider e = p).
Proof.
  destruct p; simpl;
    [unfold tryBrandfetch | unfold tryLogoDev | unfold generateWithIdeogram];
    repeat match goal with
           | |- context [if ?b then _ else _] => destruct b
           | |- context [match api_key ?e ?q with _ => _ end] =>
               destruct (api_key e q) as [[|? ?]|]
           end; simpl;
    (split; [tauto | intros e He; intuition (subst; reflexivity)]).
Qed.

Lemma provider_call_skip (env : LogoEnv) (c : string) (p : Provider) :
  (truthy_str (api_key env p) = false -> fst (provider_call env c p) = None
     /\ ~ In (Requested p) (snd (provider_call env c p))) /\
  ((respond env p = RTimeout \/ respond env p = RError) ->
     fst (provider_call env c p) = None).
Proof.
  split.
  - intros Hk. destruct p; simpl.
    + unfold tryBrandfetch. rewrite Hk. simpl.
      split; [reflexivity | intros [H|H]; [discriminate | exact H]].
    + unfold tryLogoDev.
      destruct (api_key env LogoDev) as [[|ch rest]|].
      * split; [reflexivity | intros [H|H]; [discriminate | exact H]].
      * discriminate Hk.
      * split; [reflexivity | intros [H|H]; [discriminate | exact H]].
    + unfold generateWithIdeogram. rewrite Hk. simpl.
      split; [reflexivity | intros [H|H]; [discriminate | exact H]].
  - intros Hr. destruct p; simpl;
      [unfold tryBrandfetch | unfold tryLogoDev | unfold generateWithIdeogram].
    + destruct (negb _); [reflexivity|]. destruct Hr as [-> | ->]; reflexivity.
    + destruct (api_key env LogoDev) as [[|? ?]|]; try reflexivity.
      destruct Hr as [-> | ->]; reflexivity.
    + destruct (negb _); [reflexivity|]. destruct Hr as [-> | ->]; reflexivity.
Qed.

(** C9. [fetchCompanyLogo] is total (it never raises) and works as a
    cascade over Brandfetch, Logo.dev, Ideogram: a provider without a
    key, or whose request times out or fails, yields nothing (and
    without a key sends no request); when some provider yields a logo,
    the first one in the chain that does is the result's source, every
    earlier provider was tried and no later one was called; when none
    does, the result is the fallback without url and every provider was
    tried. *)
Theorem fetchCompanyLogo_cascade (env : LogoEnv) (companyName : string) :
  let res := fetchCompanyLogo env companyName in
  (forall p, truthy_str (api_key env p) = false \/ respond env p = RTimeout
             \/ respond env p = RError ->
     fst (provider_call env companyName p) = None) /\
  (forall p, truthy_str (api_key env p) = false ->
     ~ In (Requested p) (snd (provider_call env companyName p))) /\
  match first_success env companyName providerChain with
  | Some (p, url) =>
      fst res = mkLogoOutput (Some url) (provider_source p) /\
      (forall e, In e (snd res) -> (priority (event_provider e) <= priority p)%nat) /\
      (forall q, (priority q <= priority p)%nat -> In (Tried q) (snd res))
  | None =>
      fst res = mkLogoOutput None "fallback" /\
      (forall q, In (Tried q) (snd res))
  end.
Proof.
  intros res. split; [|split].
  - intros p [Hk | Hr]; destruct (provider_call_skip env companyName p) as [S1 S2].
    + apply S1; exact Hk.
    + apply S2; exact Hr.
  - intros p Hk. destruct (provider_call_skip env companyName p) as [S1 _].
    apply S1; exact Hk.
  - destruct (provider_call_events env companyName Brandfetch) as [B1 B2].
    destruct (provider_call_events env companyName LogoDev) as [L1 L2].
    destruct (provider_call_events env companyName Ideogram) as [I1 I2].
    unfold res, fetchCompanyLogo, first_success, providerChain.
    simpl provider_call in *.
    destruct (tryBrandfetch env companyName) as [r1 t1].
    destruct (tryLogoDev env companyName) as [r2 t2].
    destruct (generateWithIdeogram env companyName) as [r3 t3].
    simpl in B1, B2, L1, L2, I1, I2 |- *.
    assert (Pb : forall e, In e t1 -> priority (event_provider e) = 0%nat)
      by (intros e He; rewrite (B2 e He); reflexivity).
    assert (Pl : forall e, In e t2 -> priority (event_provider e) = 1%nat)
      by (intros e He; rewrite (L2 e He); reflexivity).
    assert (Pi : forall e, In e t3 -> priority (event_provider e) = 2%nat)
      by (intros e He; rewrite (I2 e He); reflexivity).
    destruct (truthy_field r1) as [u1|]; [|destruct (truthy_field r2) as [u2|];
      [|destruct (truthy_field r3) as [u3|]]]; simpl.
    + split; [reflexivity|]. split.
      * intros e He. rewrite (Pb e He). lia.
      * intros q Hq. destruct q; simpl in Hq; [exact B1 | lia | lia].
    + split; [reflexivity|]. split.
      * intros e He. apply in_app_or in He as [He|He];
          [rewrite (Pb e He) | rewrite (Pl e He)]; lia.
      * intros q Hq. apply in_or_app.
        destruct q; simpl in Hq; [left; exact B1 | right; exact L1 | lia].
    + split; [reflexivity|]. split.
      * intros e He. apply in_app_or in He as [He|He];
          [|apply in_app_or in He as [He|He]];
          [rewrite (Pb e He) | rewrite (Pl e He) | rewrite (Pi e He)]; lia.
      * intros q _. apply in_or_app.
        destruct q; [left; exact B1 | right; apply in_or_app; left; exact L1
                    | right; apply in_or_app; right; exact I1].
    + split; [reflexivity|].
      intros q. apply in_or_app.
      destruct q; [left; exact B1 | right; apply in_or_app; left; exact L1
                  | right; apply in_or_app; right; exact I1].
Qed.

(* ------------------------------------------------------------------ *)
(** ** Further properties of the pipeline code *)

Ltac strategy_cases :=
  unfold determineStrategy;
  repeat match goal with
         | |- context [Rge_dec ?x ?y] => destruct (Rge_dec x y)
         | |- context [Rgt_dec ?x ?y] => destruct (Rgt_dec x y)
         end;
  first [reflexivity | exfalso; lra].

Lemma strategy_complete (s : R) : s >= 0.9 -> determineStrategy s = Complete.
Proof. intros; strategy_cases. Qed.
Lemma strategy_polish (s : R) : 0.7 <= s < 0.9 -> determineStrategy s = Polish.
Proof. intros; strategy_cases. Qed.
Lemma strategy_context (s : R) : 0.5 <= s < 0.7 -> determineStrategy s = Context.
Proof. intros; strategy_cases. Qed.
Lemma strategy_qualitative (s : R) :
  0.3 <= s < 0.5 -> determineStrategy s = Qualitative.
Proof. intros; strategy_cases. Qed.
Lemma strategy_template (s : R) : 0 < s < 0.3 -> determineStrategy s = Template.
Proof. intros; strategy_cases. Qed.
Lemma strategy_hide (s : R) : s <= 0 -> determineStrategy s = Hide.
Proof. intros; strategy_cases. Qed.
Lemma strategy_hide_iff (s : R) : determineStrategy s = Hide <-> s <= 0.
Proof.
  split; [|apply strategy_hide].
  unfold determineStrategy.
  repeat match goal with
         | |- context [Rge_dec ?x ?y] => destruct (Rge_dec x y)
         | |- context [Rgt_dec ?x ?y] => destruct (Rgt_dec x y)
         end; intros H; try discriminate; lra.
Qed.
Lemma strategy_complete_iff (s : R) : determineStrategy s = Complete <-> s >= 0.9.
Proof.
  split; [|apply strategy_complete].
  unfold determineStrategy.
  repeat match goal with
         | |- context [Rge_dec ?x ?y] => destruct (Rge_dec x y)
         | |- context [Rgt_dec ?x ?y] => destruct (Rgt_dec x y)
         end; intros H; try discriminate; lra.
Qed.

Lemma requiredPlacements_NoDup : NoDup requiredPlacements.
Proof.
  unfold requiredPlacements.
  repeat constructor; simpl; intuition discriminate.
Qed.

(** Extra. The images score is the number [n] of the user's
    [image_placements] rows over 4 (above 1 when a placement has several
    rows); the strategy is hide, template, context, polish for 0, 1, 2,
    3 rows and complete from 4 on; no missing placement implies
    complete. *)
Theorem images_strategy_by_row_count (rows : list PlacementRow) (u : string) :
  let n := length (filter (fun r => String.eqb (pl_user r) u) rows) in
  let c := calculateImagesCompleteness rows u in
  cs_score c = INR n / 4 /\
  strategy c = match n with
               | 0 => Hide | 1 => Template | 2 => Context | 3 => Polish
               | _ => Complete
               end%nat /\
  (missingFields c = [] -> strategy c = Complete).
Proof.
  intros n c.
  assert (Hs : cs_score c = INR n / 4).
  { unfold c, calculateImagesCompleteness; simpl cs_score.
    rewrite length_map. fold n. simpl. lra. }
  assert (Hst : strategy c = determineStrategy (INR n / 4)).
  { rewrite <- Hs. reflexivity. }
  split; [exact Hs|].
  assert (Hbig : (4 <= n)%nat -> strategy c = Complete).
  { intros H4. rewrite Hst. apply strategy_complete.
    apply le_INR in H4. simpl in H4. lra. }
  split.
  - destruct n as [|[|[|[|n']]]]; rewrite Hst.
    + apply strategy_hide. simpl. lra.
    + apply strategy_template. simpl. lra.
    + apply strategy_context. simpl. lra.
    + apply strategy_polish. simpl. lra.
    + apply strategy_complete. rewrite !S_INR.
      pose proof (pos_INR n'). lra.
  - intros Hm. apply Hbig.
    unfold c, calculateImagesCompleteness in Hm; cbv zeta in Hm; cbn [missingFields] in Hm.
    set (ex := map placement (filter (fun r => String.eqb (pl_user r) u) rows)) in Hm.
    assert (Hincl : incl requiredPlacements ex).
    { intros p Hp.
      destruct (existsb (String.eqb p) ex) eqn:E.
      - apply existsb_exists in E as [q [Hq Heq]].
        apply String.eqb_eq in Heq; subst q; exact Hq.
      - exfalso.
        assert (Hin : In p (filter (fun p => negb (existsb (String.eqb p) ex))
                              requiredPlacements)).
        { apply filter_In; split; [exact Hp | rewrite E; reflexivity]. }
        rewrite Hm in Hin; exact Hin. }
    pose proof (NoDup_incl_length requiredPlacements_NoDup Hincl) as Hl.
    unfold ex in Hl. rewrite length_map in Hl. exact Hl.
Qed.


Section UnitSums.
Context {A : Type} (f : A -> R).
Hypothesis f_bounds : forall x, 0 <= f x <= 1.

Lemma fold_left_sumR (l : list A) (a : R) :
  fold_left (fun acc x => acc + f x) l a = a + sumR f l.
Proof.
  revert a; induction l as [|x l IH]; intros a; simpl; [lra|].
  rewrite IH. lra.
Qed.

Lemma sumR_bounds (l : list A) : 0 <= sumR f l <= INR (length l).
Proof.
  induction l as [|x l IH]; [simpl; lra|].
  change (sumR f (x :: l)) with (f x + sumR f l).
  change (length (x :: l)) with (S (length l)).
  rewrite S_INR. pose proof (f_bounds x). lra.
Qed.

Lemma sumR_full (l : list A) :
  sumR f l = INR (length l) <-> forall x, In x l -> f x = 1.
Proof.
  induction l as [|x l IH].
  - simpl. split; [intros _ y []|reflexivity].
  - change (sumR f (x :: l)) with (f x + sumR f l).
    change (length (x :: l)) with (S (length l)).
    rewrite S_INR. simpl In. pose proof (f_bounds x) as Hfx. pose proof (sumR_bounds l) as Hsl.
    split.
    + intros H y [<-|Hy]; [lra|]. apply IH; [lra|exact Hy].
    + intros H. rewrite (H x (or_introl eq_refl)).
      rewrite (proj2 IH (fun y Hy => H y (or_intror Hy))). lra.
Qed.

Lemma sumR_zero (l : list A) :
  sumR f l = 0 <-> forall x, In x l -> f x = 0.
Proof.
  induction l as [|x l IH].
  - simpl. split; [intros _ y []|reflexivity].
  - change (sumR f (x :: l)) with (f x + sumR f l). simpl In. pose proof (f_bounds x) as Hfx. pose proof (sumR_bounds l) as Hsl.
    split.
    + intros H y [<-|Hy]; [lra|]. apply IH; [lra|exact Hy].
    + intros H. rewrite (H x (or_introl eq_refl)).
      rewrite (proj2 IH (fun y Hy => H y (or_intror Hy))). lra.
Qed.

End UnitSums.

Lemma expScore_cases (e : ExperienceRow) :
  0 <= expScore e <= 1 /\
  (expScore e = 1 <->
     (truthy_str (company_name e) && truthy_str (role_title e)
      && truthy_str (start_date e) && truthy_str (description e))%bool = true) /\
  (expScore e = 0 <->
     (truthy_str (company_name e) || truthy_str (role_title e)
      || truthy_str (start_date e) || truthy_str (description e))%bool = false).
Proof.
  unfold expScore.
  destruct (truthy_str (company_name e)), (truthy_str (role_title e)),
    (truthy_str (start_date e)), (truthy_str (description e)); simpl;
    (split; [lra|]);
    (split; split; intros H; first [reflexivity | discriminate | lra]).
Qed.

(** Extra. Without work experiences the section scores 0 with strategy
    template. Otherwise the score lies in [0, 1]; it is 1 exactly when
    every experience has company name, role title, start date and
    description; the strategy is hide exactly when none has any of them;
    and nothing is reported missing exactly when the score is at least
    0.8. *)
Theorem work_experience_score_bounds (rows : list ExperienceRow) (u : string) :
  let mine := filter (fun e => String.eqb (ex_user e) u) rows in
  let c := calculateWorkExperienceCompleteness rows u in
  (mine = [] -> cs_score c = 0 /\ strategy c = Template) /\
  (mine <> [] ->
     0 <= cs_score c <= 1 /\
     (cs_score c = 1 <->
        forall e, In e mine ->
          (truthy_str (company_name e) && truthy_str (role_title e)
           && truthy_str (start_date e) && truthy_str (description e))%bool
          = true) /\
     (strategy c = Hide <->
        forall e, In e mine ->
          (truthy_str (company_name e) || truthy_str (role_title e)
           || truthy_str (start_date e) || truthy_str (description e))%bool
          = false) /\
     (missingFields c = [] <-> cs_score c >= 0.8)).
Proof.
  intros mine c.
  assert (Hb : forall e, 0 <= expScore e <= 1)
    by (intros e; apply (expScore_cases e)).
  unfold c, calculateWorkExperienceCompleteness. fold mine.
  destruct mine as [|e0 rest] eqn:Em.
  - split; [intros _; split; reflexivity | intros H; congruence].
  - split; [intros H; discriminate|]. intros _.
    rewrite <- Em. cbv zeta. cbn [cs_score strategy missingFields].
    rewrite (fold_left_sumR expScore).
    pose proof (sumR_bounds expScore Hb mine) as [H0 H1].
    assert (Hn : 0 < INR (length mine)) by (rewrite Em; simpl length; rewrite S_INR; pose proof (pos_INR (length rest)); lra).
    set (n := INR (length mine)) in *.
    set (t := sumR expScore mine) in *.
    assert (Hdiv : forall x, x / n = x * / n) by (intros; reflexivity).
    assert (Hsc : 0 <= (0 + t) / n <= 1).
    { split; apply Rmult_le_reg_r with n; try lra;
        unfold Rdiv; rewrite Rmult_assoc, Rinv_l, Rmult_1_r by lra; lra. }
    split; [exact Hsc|].
    split; [|split].
    + split.
      * intros H. assert (Ht : t = n).
        { assert (H' : (0 + t) / n * n = 1 * n) by (rewrite H; reflexivity).
          unfold Rdiv in H'. rewrite Rmult_assoc, Rinv_l in H' by lra. lra. }
        intros e He. apply (expScore_cases e).
        exact (proj1 (sumR_full expScore Hb mine) Ht e He).
      * intros Hall. assert (Ht : t = n).
        { apply (sumR_full expScore Hb mine). intros e He.
          apply (expScore_cases e). exact (Hall e He). }
        rewrite Ht. unfold Rdiv. rewrite Rplus_0_l, Rinv_r; lra.
    + rewrite strategy_hide_iff. split.
      * intros H. assert (Ht : t = 0).
        { assert (Hle : (0 + t) / n * n <= 0 * n) by (apply Rmult_le_compat_r; lra).
          unfold Rdiv in Hle. rewrite Rmult_assoc, Rinv_l in Hle by lra. lra. }
        intros e He. apply (expScore_cases e).
        exact (proj1 (sumR_zero expScore Hb mine) Ht e He).
      * intros Hall. assert (Ht : t = 0).
        { apply (sumR_zero expScore Hb mine). intros e He.
          apply (expScore_cases e). exact (Hall e He). }
        rewrite Ht. unfold Rdiv. rewrite Rplus_0_l, Rmult_0_l. lra.
    + destruct (Rlt_dec ((0 + t) / n) 0.8); split; intros H;
        first [discriminate | lra | reflexivity].
Qed.


(** Extra. The skills score lies in [0, 1]; the strategy is template for
    up to 2 skills, qualitative for 3, context for 4 or 5, polish for 6
    or 7 and complete from 8 on. Without skills [skills] is reported
    missing, with 1 to 7 skills [more_skills], and nothing from 8 on. *)
Theorem skills_strategy_by_count (rows : list SkillRow) (u : string) :
  let n := length (filter (fun r => String.eqb (sk_user r) u) rows) in
  let c := calculateSkillsCompleteness rows u in
  0 <= cs_score c <= 1 /\
  strategy c = match n with
               | 0 | 1 | 2 => Template
               | 3 => Qualitative
               | 4 | 5 => Context
               | 6 | 7 => Polish
               | _ => Complete
               end%nat /\
  (n = 0%nat -> missingFields c = ["skills"]) /\
  ((0 < n < 8)%nat -> missingFields c = ["more_skills"]) /\
  (missingFields c = [] <-> (8 <= n)%nat).
Proof.
  intros n c. unfold c, calculateSkillsCompleteness. unfold n.
  destruct (filter (fun r => String.eqb (sk_user r) u) rows) as [|x l].
  - cbn. split; [lra|]. split; [reflexivity|]. split; [intros _; reflexivity|].
    split; [intros H; exfalso; lia | split; [discriminate | lia]].
  - cbv zeta. cbn [cs_score strategy missingFields].
    change (length (x :: l)) with (S (length l)).
    change (INR 8) with (INR 8).
    assert (H8 : INR 8 = 8) by (simpl; lra). rewrite H8.
    destruct (Nat.lt_ge_cases (length l) 7) as [Hs|Hb].
    + assert (Hk : INR (S (length l)) / 8 < 1).
      { apply lt_INR in Hs. rewrite S_INR. simpl in Hs. lra. }
      rewrite Rmin_left by lra.
      assert (Hp : 0 <= INR (S (length l)) / 8) by (pose proof (pos_INR (S (length l))); lra).
      split; [lra|].
      assert (Hlt : (S (length l) <? 8)%nat = true) by (apply Nat.ltb_lt; lia).
      rewrite Hlt.
      split; [|split; [intros H; discriminate H|split; [intros _; reflexivity|split; [discriminate | lia]]]].
      destruct (length l) as [|[|[|[|[|[|[|k]]]]]]]; try lia;
        simpl INR;
        first [ apply strategy_template; lra | apply strategy_qualitative; lra
              | apply strategy_context; lra | apply strategy_polish; lra ].
    + assert (Hk : 1 <= INR (S (length l)) / 8).
      { apply le_INR in Hb. rewrite S_INR. simpl in Hb. lra. }
      rewrite Rmin_right by lra.
      split; [lra|].
      assert (Hge : (S (length l) <? 8)%nat = false) by (apply Nat.ltb_ge; lia).
      rewrite Hge.
      split; [|split; [intros H; discriminate H|split; [intros H; exfalso; lia|split; [intros _; lia | reflexivity]]]].
      rewrite strategy_complete by lra.
      destruct (length l) as [|[|[|[|[|[|[|k]]]]]]]; try lia; reflexivity.
Qed.


(** Extra. Unless the user has exactly one story row, the story section
    scores 0 with strategy qualitative and reports the story missing.
    With one row the score lies in [0, 1], the strategy is complete
    exactly when nothing is missing, and hide exactly when opener,
    narrative and quote are all missing. *)
Theorem story_strategy_and_missing (rows : list StoryRow) (u : string) :
  let c := calculateStoryCompleteness rows u in
  match single (filter (fun r => String.eqb (st_user r) u) rows) with
  | None => cs_score c = 0 /\ strategy c = Qualitative /\ missingFields c = ["story"]
  | Some _ =>
      0 <= cs_score c <= 1 /\
      (strategy c = Complete <-> missingFields c = []) /\
      (strategy c = Hide <-> missingFields c = ["opener"; "narrative"; "quote"])
  end.
Proof.
  intros c. unfold c, calculateStoryCompleteness.
  destruct (single (filter (fun r => String.eqb (st_user r) u) rows)) as [st|].
  - destruct (truthy_str (opener st)), (has_narrative st), (truthy_str (quote st));
      cbn [cs_score strategy missingFields app];
      (split; [lra|]);
      (split; split; intros H;
       first [ reflexivity | discriminate
             | rewrite strategy_complete in H by lra; discriminate
             | rewrite strategy_hide in H by lra; discriminate
             | apply strategy_complete; lra
             | apply strategy_hide; lra
             | exfalso; revert H;
               first [ rewrite strategy_polish by lra
                     | rewrite strategy_context by lra
                     | rewrite strategy_qualitative by lra
                     | rewrite strategy_template by lra ]; discriminate ]).
  - split; [reflexivity | split; reflexivity].
Qed.


Lemma dedup_In (xs : list string) (x : string) : In x (dedup xs) <-> In x xs.
Proof.
  induction xs as [|y rest IH]; simpl; [tauto|].
  rewrite filter_In, IH. destruct (String.eqb_spec y x); simpl.
  - subst. tauto.
  - split; [intros [H|[H _]]; tauto | intros [H|H]; [tauto | right; split; auto]].
Qed.

Lemma dedup_NoDup (xs : list string) : NoDup (dedup xs).
Proof.
  induction xs as [|y rest IH]; simpl; constructor.
  - rewrite filter_In. intros [_ H]. rewrite String.eqb_refl in H. discriminate.
  - apply NoDup_filter. exact IH.
Qed.

Lemma filter_truthy_In (xs : list (option string)) (c : string) :
  In c (filter_truthy xs) <-> In (Some c) xs /\ truthy_str (Some c) = true.
Proof.
  induction xs as [|[y|] rest IH]; cbn [filter_truthy].
  - simpl. tauto.
  - destruct (truthy_str (Some y)) eqn:Ey; cbn [In]; rewrite IH.
    + split.
      * intros [<-|[H1 H2]]; [split; [left; reflexivity | exact Ey] | tauto].
      * intros [[H|H] H2]; [left; congruence | right; tauto].
    + split.
      * intros [H1 H2]; tauto.
      * intros [[H|H] H2]; [congruence | tauto].
  - cbn [In]. rewrite IH. split; [tauto | intros [[H|H] H2]; [discriminate | tauto]].
Qed.

(** Extra. Without a truthy company id among the user's experiences the
    logos section scores 0, is hidden and reports the companies missing.
    Otherwise the score lies in [0, 1], nothing is missing exactly when
    it is 1, and it is 1 exactly when every such company has a
    [company_assets] row. *)
Theorem logos_full_iff_all_linked (exps : list ExperienceRow)
    (links : list CompanyAssetRow) (u : string) :
  let c := calculateLogosCompleteness exps links u in
  ((forall e, In e exps -> ex_user e = u -> truthy_str (company_id e) = false) ->
     cs_score c = 0 /\ strategy c = Hide /\ missingFields c = ["companies"]) /\
  ((exists e, In e exps /\ ex_user e = u /\ truthy_str (company_id e) = true) ->
     0 <= cs_score c <= 1 /\
     (missingFields c = [] <-> cs_score c = 1) /\
     (cs_score c = 1 <->
        forall e cid, In e exps -> ex_user e = u -> company_id e = Some cid ->
          truthy_str (Some cid) = true ->
          exists l, In l links /\ ca_company_id l = cid)).
Proof.
  intros c.
  set (mine := filter (fun e => String.eqb (ex_user e) u) exps).
  set (ids := dedup (filter_truthy (map company_id mine))).
  assert (Hids : forall cid, In cid ids <->
            exists e, In e exps /\ ex_user e = u /\ company_id e = Some cid /\
                      truthy_str (Some cid) = true).
  { intros cid. unfold ids. rewrite dedup_In, filter_truthy_In, in_map_iff.
    split.
    - intros [[e [He Hin]] Ht]. unfold mine in Hin. apply filter_In in Hin as [Hin Hu].
      apply String.eqb_eq in Hu. exists e. tauto.
    - intros [e [Hin [Hu [He Ht]]]]. split; [|exact Ht].
      exists e. split; [exact He|]. unfold mine. apply filter_In.
      split; [exact Hin | apply String.eqb_eq; exact Hu]. }
  assert (Hc : c = calculateLogosCompleteness exps links u) by reflexivity.
  unfold calculateLogosCompleteness in Hc. fold mine in Hc. fold ids in Hc.
  split.
  - intros Hnone. destruct ids as [|cid rest] eqn:Ei.
    + rewrite Hc. split; [reflexivity | split; reflexivity].
    + exfalso. destruct (proj1 (Hids cid) (or_introl eq_refl))
        as [e [Hin [Hu [He Ht]]]].
      specialize (Hnone e Hin Hu). rewrite He in Hnone. congruence.
  - intros [e0 [Hin0 [Hu0 Ht0]]].
    destruct (company_id e0) as [cid0|] eqn:Ec0; [|discriminate].
    assert (Hin_ids : In cid0 ids) by (apply Hids; exists e0; tauto).
    set (logoLinks := filter (fun l => existsb (String.eqb (ca_company_id l)) ids) links) in Hc.
    set (withLogos := dedup (map ca_company_id logoLinks)) in Hc.
    assert (Hw_incl : incl withLogos ids).
    { intros x Hx. unfold withLogos in Hx. rewrite dedup_In, in_map_iff in Hx.
      destruct Hx as [l [Hl Hlin]]. unfold logoLinks in Hlin.
      apply filter_In in Hlin as [_ Hex]. apply existsb_exists in Hex.
      destruct Hex as [y [Hy Heq]]. apply String.eqb_eq in Heq. subst. exact Hy. }
    assert (Hw_nd : NoDup withLogos) by apply dedup_NoDup.
    assert (Hi_nd : NoDup ids) by apply dedup_NoDup.
    pose proof (NoDup_incl_length Hw_nd Hw_incl) as Hle.
    assert (Hall_iff : (length withLogos = length ids) <->
              forall e cid, In e exps -> ex_user e = u -> company_id e = Some cid ->
                truthy_str (Some cid) = true ->
                exists l, In l links /\ ca_company_id l = cid).
    { split.
      - intros Heq e cid He Hu Hce Ht.
        assert (Hi : In cid ids) by (apply Hids; exists e; tauto).
        assert (Hinc : incl ids withLogos)
          by (apply (NoDup_length_incl Hw_nd); [lia | exact Hw_incl]).
        specialize (Hinc cid Hi). unfold withLogos in Hinc.
        rewrite dedup_In, in_map_iff in Hinc. destruct Hinc as [l [Hl Hlin]].
        unfold logoLinks in Hlin. apply filter_In in Hlin as [Hlin _].
        exists l. tauto.
      - intros Hall. apply Nat.le_antisymm; [exact Hle|].
        apply NoDup_incl_length; [exact Hi_nd|].
        intros cid Hi. apply Hids in Hi as [e [He [Hu [Hce Ht]]]].
        destruct (Hall e cid He Hu Hce Ht) as [l [Hl Hlc]].
        unfold withLogos. rewrite dedup_In, in_map_iff. exists l.
        split; [exact Hlc|]. unfold logoLinks. apply filter_In.
        split; [exact Hl|]. apply existsb_exists. exists cid.
        split; [apply Hids; exists e; tauto | rewrite Hlc; apply String.eqb_refl]. }
    destruct ids as [|i0 irest] eqn:Ei; [destruct Hin_ids|].
    rewrite <- Ei in *. rewrite Hc. cbv zeta. cbn [cs_score missingFields].
    assert (Hpos : 0 < INR (length ids)) by (rewrite Ei; simpl length; rewrite S_INR; pose proof (pos_INR (length irest)); lra).
    apply le_INR in Hle.
    pose proof (pos_INR (length withLogos)) as Hw0.
    set (a := INR (length withLogos)) in *. set (b := INR (length ids)) in *.
    assert (Hq : a / b = 1 <-> a = b).
    { split; intros H.
      - assert (H' : a / b * b = 1 * b) by (rewrite H; reflexivity).
        unfold Rdiv in H'. rewrite Rmult_assoc, Rinv_l in H' by lra. lra.
      - rewrite H. unfold Rdiv. apply Rinv_r. lra. }
    assert (Hb1 : 0 <= a / b <= 1).
    { split; apply Rmult_le_reg_r with b; try lra;
        unfold Rdiv; rewrite Rmult_assoc, Rinv_l, Rmult_1_r by lra; lra. }
    split; [exact Hb1|].
    split.
    + destruct (Rlt_dec (a / b) 1.0); split; intros H;
        first [discriminate | lra | reflexivity].
    + rewrite Hq, <- Hall_iff. unfold a, b. split; [apply INR_eq | intros ->; reflexivity].
Qed.


Lemma ratio_unit (k n : nat) : (k <= n)%nat -> (0 < n)%nat ->
  0 <= INR k / INR n <= 1.
Proof.
  intros Hk Hn. apply le_INR in Hk. apply lt_INR in Hn. simpl in Hn.
  pose proof (pos_INR k).
  split; apply Rmult_le_reg_r with (INR n); try lra;
    unfold Rdiv; rewrite Rmult_assoc, Rinv_l, Rmult_1_r by lra; lra.
Qed.

(** Extra. The achievements score lies in [0, 1], and when nothing is
    reported missing the strategy is polish or complete. *)
Theorem achievements_completeness_bounds (s : Store) (u : string) :
  let c := calculateAchievementsCompleteness s u in
  0 <= cs_score c <= 1 /\
  (missingFields c = [] -> strategy c = Polish \/ strategy c = Complete).
Proof.
  intros c. unfold c, calculateAchievementsCompleteness.
  destruct (filter (fun we => String.eqb (we_user we) u) (work_experiences s))
    as [|we0 wes].
  - cbn. split; [lra | discriminate].
  - set (ids := map we_id (we0 :: wes)).
    destruct (filter _ (achievements s)) as [|a0 rest] eqn:Ea.
    + cbn. split; [lra | discriminate].
    + rewrite <- Ea. cbv zeta. cbn [cs_score strategy missingFields].
      set (achs := filter _ (achievements s)) in *.
      assert (Hn : (0 < length achs)%nat) by (rewrite Ea; simpl; lia).
      assert (Hlt : (0 <? length achs)%nat = true) by (apply Nat.ltb_lt; exact Hn).
      rewrite Hlt.
      pose proof (ratio_unit _ _ (filter_length_le (fun a => truthy_num (metric_value_numeric a) && truthy_str (metric_unit a)) achs) Hn) as Hm.
      pose proof (ratio_unit _ _ (filter_length_le (fun a => truthy_str (impact_statement a)) achs) Hn) as Hi.
      set (m := INR (length (filter _ achs)) / INR (length achs)) in *.
      set (i := INR (length (filter (fun a => truthy_str (impact_statement a)) achs)) / INR (length achs)) in *.
      assert (H6 : INR 6 = 6) by (simpl; lra). rewrite H6.
      pose proof (pos_INR (length achs)) as Hp.
      assert (Hcount : 0 <= Rmin (INR (length achs) / 6) 1.0 <= 1).
      { unfold Rmin. destruct (Rle_dec _ _); lra. }
      split; [lra|].
      destruct ((length achs) <? 6)%nat eqn:E6; [discriminate|].
      destruct (Rlt_dec m 0.5); [discriminate|].
      destruct (Rlt_dec i 0.5); [discriminate|].
      intros _. apply Nat.ltb_ge, le_INR in E6. simpl in E6.
      rewrite Rmin_right by lra.
      destruct (Rge_dec (1.0 * 0.4 + m * 0.4 + i * 0.2) 0.9).
      * right. apply strategy_complete. exact r.
      * left. apply strategy_polish. lra.
Qed.



Lemma filter_map_comm {A : Type} (p : A -> bool) (g : A -> A) (l : list A) :
  (forall x, p (g x) = p x) -> filter p (map g l) = map g (filter p l).
Proof.
  intros Hp. induction l as [|x l IH]; simpl; [reflexivity|].
  rewrite Hp. destruct (p x); simpl; rewrite IH; reflexivity.
Qed.

Lemma map_id_on {A : Type} (g : A -> A) (l : list A) :
  (forall x, In x l -> g x = x) -> map g l = l.
Proof.
  induction l as [|x l IH]; simpl; intros H; [reflexivity|].
  rewrite H, IH by auto. reflexivity.
Qed.

Section SaveCompleteness.
Variable u : string.
Variable sd : CompletenessScore.

Lemma upd_keys (r : CompletenessRow) :
  cr_user (update_row u sd r) = cr_user r /\ cr_section (update_row u sd r) = cr_section r.
Proof. unfold update_row. destruct (row_matches _ _ r); split; reflexivity. Qed.

Lemma upd_matching (r : CompletenessRow) :
  row_matches u (section sd) r = true -> update_row u sd r = row_of u sd.
Proof.
  unfold update_row, row_of, row_matches. intros H. rewrite H.
  apply andb_true_iff in H as [H1 H2].
  apply String.eqb_eq in H1, H2. rewrite H1, H2. reflexivity.
Qed.

Lemma save_same_section (tbl : list CompletenessRow) :
  (length (filter (row_matches u (section sd)) tbl) <= 1)%nat ->
  filter (row_matches u (section sd)) (saveCompletenessScore u sd tbl)
  = [row_of u sd].
Proof.
  intros Hle. unfold saveCompletenessScore.
  destruct (filter (row_matches u (section sd)) tbl) as [|x [|y rest]] eqn:E;
    simpl single; cbv iota.
  - rewrite filter_app, E. simpl. unfold row_matches at 1. simpl.
    rewrite !String.eqb_refl. reflexivity.
  - fold (update_row u sd). rewrite filter_map_comm.
    + rewrite E. simpl. rewrite upd_matching; [reflexivity|].
      assert (Hx : In x (filter (row_matches u (section sd)) tbl)) by (rewrite E; left; reflexivity).
      apply filter_In in Hx. exact (proj2 Hx).
    + intros r. unfold row_matches. destruct (upd_keys r) as [-> ->]. reflexivity.
  - simpl in Hle. lia.
Qed.

Lemma save_other_rows (tbl : list CompletenessRow) (keep : CompletenessRow -> bool) :
  (forall r, keep r = true -> row_matches u (section sd) r = false) ->
  (forall r r', cr_user r = cr_user r' -> cr_section r = cr_section r' ->
     keep r = keep r') ->
  keep (row_of u sd) = false ->
  filter keep (saveCompletenessScore u sd tbl) = filter keep tbl.
Proof.
  intros Hk Hkey Hnew. unfold saveCompletenessScore.
  destruct (single _).
  - fold (update_row u sd). rewrite filter_map_comm.
    + apply map_id_on. intros r Hr. apply filter_In in Hr as [_ Hr].
      unfold update_row. rewrite (Hk r Hr). reflexivity.
    + intros r. destruct (upd_keys r) as [H1 H2]. apply Hkey; assumption.
  - rewrite filter_app. simpl. unfold row_of in Hnew. rewrite Hnew.
    apply app_nil_r.
Qed.

End SaveCompleteness.

Lemma save_all_spec (u : string) (scores : list CompletenessScore)
    (tbl : list CompletenessRow) :
  NoDup (map section scores) ->
  (forall sec, (length (filter (row_matches u sec) tbl) <= 1)%nat) ->
  let tbl' := fold_left (fun t sd => saveCompletenessScore u sd t) scores tbl in
  (forall sd, In sd scores -> filter (row_matches u (section sd)) tbl' = [row_of u sd]) /\
  (forall sec, ~ In sec (map section scores) ->
     filter (row_matches u sec) tbl' = filter (row_matches u sec) tbl) /\
  (forall sec, (length (filter (row_matches u sec) tbl') <= 1)%nat) /\
  filter (fun r => negb (String.eqb (cr_user r) u)) tbl'
  = filter (fun r => negb (String.eqb (cr_user r) u)) tbl.
Proof.
  revert tbl. induction scores as [|sd rest IH]; intros tbl Hnd Huniq; simpl.
  - split; [intros _ []|]. split; [reflexivity|]. split; [exact Huniq|reflexivity].
  - inversion Hnd as [|? ? Hnin Hnd']; subst.
    set (t1 := saveCompletenessScore u sd tbl).
    assert (Hsame : filter (row_matches u (section sd)) t1 = [row_of u sd])
      by (apply save_same_section; apply Huniq).
    assert (Hoth : forall sec, sec <> section sd ->
              filter (row_matches u sec) t1 = filter (row_matches u sec) tbl).
    { intros sec Hne. apply save_other_rows.
      - intros r Hr. unfold row_matches in *.
        apply andb_true_iff in Hr as [H1 H2]. apply String.eqb_eq in H1, H2.
        rewrite H1, H2, String.eqb_refl. simpl.
        apply String.eqb_neq. exact Hne.
      - intros r r' H1 H2. unfold row_matches. rewrite H1, H2. reflexivity.
      - unfold row_matches, row_of. simpl. rewrite String.eqb_refl. simpl.
        apply String.eqb_neq. intros H; apply Hne; symmetry; exact H. }
    assert (Husers : filter (fun r => negb (String.eqb (cr_user r) u)) t1
                     = filter (fun r => negb (String.eqb (cr_user r) u)) tbl).
    { apply save_other_rows.
      - intros r Hr. unfold row_matches. apply negb_true_iff in Hr. rewrite Hr. reflexivity.
      - intros r r' H1 _. rewrite H1. reflexivity.
      - unfold row_of. simpl. rewrite String.eqb_refl. reflexivity. }
    assert (Huniq1 : forall sec, (length (filter (row_matches u sec) t1) <= 1)%nat).
    { intros sec. destruct (String.eqb_spec sec (section sd)) as [->|Hne].
      - rewrite Hsame. simpl. lia.
      - rewrite Hoth by exact Hne. apply Huniq. }
    destruct (IH t1 Hnd' Huniq1) as [A1 [A2 [A3 A4]]].
    split; [|split; [|split]].
    + intros x [<-|Hx].
      * rewrite A2 by exact Hnin. exact Hsame.
      * exact (A1 x Hx).
    + intros sec Hsec. rewrite A2 by (intros H; apply Hsec; right; exact H).
      apply Hoth. intros H; apply Hsec; left; symmetry; exact H.
    + exact A3.
    + rewrite A4. exact Husers.
Qed.

Lemma section_images rows u : section (calculateImagesCompleteness rows u) = "images".
Proof. reflexivity. Qed.
Lemma section_achievements s u :
  section (calculateAchievementsCompleteness s u) = "achievements".
Proof.
  unfold calculateAchievementsCompleteness.
  destruct (filter _ (work_experiences s)); [reflexivity|].
  cbv zeta. destruct (filter _ (achievements s)); reflexivity.
Qed.
Lemma section_logos exps links u :
  section (calculateLogosCompleteness exps links u) = "logos".
Proof. unfold calculateLogosCompleteness. cbv zeta. destruct (dedup _); reflexivity. Qed.
Lemma section_work_experience rows u :
  section (calculateWorkExperienceCompleteness rows u) = "work_experience".
Proof. unfold calculateWorkExperienceCompleteness. destruct (filter _ rows); reflexivity. Qed.
Lemma section_skills rows u : section (calculateSkillsCompleteness rows u) = "skills".
Proof. unfold calculateSkillsCompleteness. destruct (filter _ rows); reflexivity. Qed.
Lemma section_story rows u : section (calculateStoryCompleteness rows u) = "story".
Proof.
  unfold calculateStoryCompleteness. destruct (single _) as [st|]; [|reflexivity].
  destruct (truthy_str (opener st)), (has_narrative st), (truthy_str (quote st));
    reflexivity.
Qed.

(** Extra. When the table holds at most one row per (user, section),
    [calculateAllCompleteness] computes the six sections in order and
    leaves exactly one row per section for the user, holding that
    section's result; the table keeps at most one row per (user,
    section) and the rows of other users are unchanged. *)
Theorem completeness_saved_once_per_section (s : Store)
    (placements : list PlacementRow) (exps : list ExperienceRow)
    (links : list CompanyAssetRow) (skills : list SkillRow)
    (stories : list StoryRow) (u : string) (tbl : list CompletenessRow)
    (Huniq : forall sec, (length (filter (row_matches u sec) tbl) <= 1)%nat) :
  let res := calculateAllCompleteness s placements exps links skills stories u tbl in
  map section (fst res)
  = ["images"; "achievements"; "logos"; "work_experience"; "skills"; "story"] /\
  (forall sd, In sd (fst res) ->
     filter (row_matches u (section sd)) (snd res) = [row_of u sd]) /\
  (forall sec, (length (filter (row_matches u sec) (snd res)) <= 1)%nat) /\
  filter (fun r => negb (String.eqb (cr_user r) u)) (snd res)
  = filter (fun r => negb (String.eqb (cr_user r) u)) tbl.
Proof.
  intros res.
  assert (Hsec : map section (fst res)
                 = ["images"; "achievements"; "logos"; "work_experience"; "skills"; "story"]).
  { unfold res, calculateAllCompleteness. simpl fst. cbn [map].
    rewrite section_images, section_achievements, section_logos,
      section_work_experience, section_skills, section_story.
    reflexivity. }
  assert (Hnd : NoDup (map section (fst res))).
  { rewrite Hsec. repeat constructor; simpl; intuition discriminate. }
  destruct (save_all_spec u (fst res) tbl Hnd Huniq) as [A1 [_ [A3 A4]]].
  split; [exact Hsec|]. split; [exact A1|]. split; [exact A3|exact A4].
Qed.

Lemma completeness_saved_once_per_section_witness :
  let tbl := [mkCompletenessRow "u1" "images" 0.5 Context ["achievements_career_main"];
              mkCompletenessRow "u1" "skills" 0 Template ["skills"];
              mkCompletenessRow "u2" "images" 1 Complete []] in
  let placements := [mkPlacement "u1" "hero"; mkPlacement "u2" "hero"] in
  let skills := [mkSkill "u1" "TypeScript"] in
  (forall sec, (length (filter (row_matches "u1" sec) tbl) <= 1)%nat) /\
  (let res := calculateAllCompleteness (mkStore [] [] [] []) placements [] []
                skills [] "u1" tbl in
   map section (fst res)
   = ["images"; "achievements"; "logos"; "work_experience"; "skills"; "story"] /\
   (forall sd, In sd (fst res) ->
      filter (row_matches "u1" (section sd)) (snd res) = [row_of "u1" sd]) /\
   (forall sec, (length (filter (row_matches "u1" sec) (snd res)) <= 1)%nat) /\
   filter (fun r => negb (String.eqb (cr_user r) "u1")) (snd res)
   = filter (fun r => negb (String.eqb (cr_user r) "u1")) tbl).
Proof.
  intros tbl placements skills.
  assert (Hu : forall sec, (length (filter (row_matches "u1" sec) tbl) <= 1)%nat).
  { intros sec. unfold tbl, row_matches. cbn [filter cr_user cr_section].
    rewrite String.eqb_refl.
    change (String.eqb "u2" "u1") with false. cbn [andb].
    destruct (String.eqb "images" sec) eqn:E1, (String.eqb "skills" sec) eqn:E2;
      cbn [filter length]; try lia.
    apply String.eqb_eq in E1, E2. rewrite <- E2 in E1. discriminate E1. }
  split; [exact Hu|].
  exact (completeness_saved_once_per_section (mkStore [] [] [] []) placements [] []
           skills [] "u1" tbl Hu).
Defined.

Lemma update_latest_run_shape (u st0 st : string) (err : option string)
    (runs runs' : list PipelineRun) :
  update_latest_run u st0 st err runs = Some runs' ->
  latest_run u st0 runs' = Some (mkRun u st0 st (error_or_null err)) /\
  length (filter (run_key u st0) runs') = length (filter (run_key u st0) runs) /\
  (forall k, (forall r, k r = true -> run_key u st0 r = false) ->
     filter k runs' = filter k runs).
Proof.
  revert runs'. induction runs as [|r rs IH]; intros runs' H; simpl in H;
    [discriminate|].
  unfold latest_run, run_key in *.
  destruct (String.eqb (run_user r) u && String.eqb (pipeline_name r) st0) eqn:E.
  - injection H as <-. apply andb_true_iff in E as [E1 E2].
    apply String.eqb_eq in E1, E2. simpl. rewrite E1, E2, !String.eqb_refl.
    simpl. split; [reflexivity|]. split; [reflexivity|].
    intros k Hk. destruct (k (mkRun u st0 st (error_or_null err))) eqn:K1.
    + apply Hk in K1. simpl in K1. rewrite !String.eqb_refl in K1. discriminate.
    + destruct (k r) eqn:K2; [|reflexivity].
      apply Hk in K2. rewrite E1, E2, !String.eqb_refl in K2. discriminate.
  - destruct (update_latest_run u st0 st err rs) as [rs'|] eqn:Er; [|discriminate].
    simpl in H. injection H as <-.
    destruct (IH rs' eq_refl) as [H1 [H2 H3]].
    simpl. rewrite E. split; [exact H1|]. split; [exact H2|].
    intros k Hk. simpl. rewrite (H3 k Hk). reflexivity.
Qed.

Lemma update_latest_run_none (u st0 st : string) (err : option string)
    (runs : list PipelineRun) :
  update_latest_run u st0 st err runs = None ->
  filter (run_key u st0) runs = [].
Proof.
  induction runs as [|r rs IH]; simpl; [reflexivity|].
  unfold run_key at 1.
  destruct (String.eqb (run_user r) u && String.eqb (pipeline_name r) st0) eqn:E;
    [discriminate|].
  destruct (update_latest_run u st0 st err rs); [discriminate|].
  intros _. apply IH. reflexivity.
Qed.

(** What one [updatePipelineStatus] does to [pipeline_runs]. *)
Lemma updatePipelineStatus_runs (u st0 st : string) (err : option string) (s : Store) :
  let runs' := pipeline_runs (updatePipelineStatus u st0 st err s) in
  latest_run u st0 runs' = Some (mkRun u st0 st (error_or_null err)) /\
  length (filter (run_key u st0) runs')
  = Nat.max 1 (length (filter (run_key u st0) (pipeline_runs s))) /\
  (forall k, (forall r, k r = true -> run_key u st0 r = false) ->
     filter k runs' = filter k (pipeline_runs s)) /\
  achievements (updatePipelineStatus u st0 st err s) = achievements s /\
  achievement_rankings (updatePipelineStatus u st0 st err s) = achievement_rankings s.
Proof.
  unfold updatePipelineStatus. simpl.
  destruct (update_latest_run u st0 st err (pipeline_runs s)) as [runs'|] eqn:E.
  - destruct (update_latest_run_shape _ _ _ _ _ _ E) as [H1 [H2 H3]].
    split; [exact H1|]. split; [|split; [exact H3 | split; reflexivity]].
    rewrite H2. destruct (length (filter (run_key u st0) (pipeline_runs s))) eqn:L.
    + exfalso. assert (Hin : In (mkRun u st0 st (error_or_null err)) (filter (run_key u st0) runs')).
      { apply filter_In. split.
        - unfold latest_run in H1. apply find_some in H1. exact (proj1 H1).
        - unfold run_key. simpl. rewrite !String.eqb_refl. reflexivity. }
      assert (Hlen : (0 < length (filter (run_key u st0) runs'))%nat)
        by (destruct (filter (run_key u st0) runs'); [destruct Hin | simpl; lia]).
      rewrite H2 in Hlen. lia.
    + lia.
  - pose proof (update_latest_run_none _ _ _ _ _ E) as H0.
    unfold latest_run, run_key in *. simpl. rewrite !String.eqb_refl. simpl.
    split; [reflexivity|]. rewrite H0. split; [reflexivity|].
    split; [|split; reflexivity].
    intros k Hk. destruct (k (mkRun u st0 st (error_or_null err))) eqn:K.
    + apply Hk in K. simpl in K. rewrite !String.eqb_refl in K. discriminate.
    + reflexivity.
Qed.

Lemma processStep_spec (name : string)
    (body : Store -> Store * option string) (u : string) (s : Store)
    (Hbody : forall s1, pipeline_runs (fst (body s1)) = pipeline_runs s1) :
  let s1 := updatePipelineStatus u name "running" None s in
  let s' := processStep name body u s in
  latest_run u name (pipeline_runs s')
  = Some (match snd (body s1) with
          | None => mkRun u name "succeeded" None
          | Some msg => mkRun u name "failed" (error_or_null (Some msg))
          end) /\
  length (filter (run_key u name) (pipeline_runs s'))
  = Nat.max 1 (length (filter (run_key u name) (pipeline_runs s))) /\
  (forall k, (forall r, k r = true -> run_key u name r = false) ->
     filter k (pipeline_runs s') = filter k (pipeline_runs s)).
Proof.
  intros s1 s'. unfold s', processStep. fold s1.
  destruct (updatePipelineStatus_runs u name "running" None s) as [R1 [R2 [R3 _]]].
  fold s1 in R1, R2, R3.
  specialize (Hbody s1).
  destruct (body s1) as [s2 err]. cbn [fst snd] in Hbody |- *.
  assert (Hfin : forall st e,
    let s3 := updatePipelineStatus u name st e s2 in
    latest_run u name (pipeline_runs s3) = Some (mkRun u name st (error_or_null e)) /\
    length (filter (run_key u name) (pipeline_runs s3))
    = Nat.max 1 (length (filter (run_key u name) (pipeline_runs s))) /\
    (forall k, (forall r, k r = true -> run_key u name r = false) ->
       filter k (pipeline_runs s3) = filter k (pipeline_runs s))).
  { intros st e; cbv zeta.
    destruct (updatePipelineStatus_runs u name st e s2) as [T1 [T2 [T3 _]]].
    split; [exact T1|]. split.
    - rewrite T2, Hbody, R2. lia.
    - intros k Hk. rewrite (T3 k Hk), Hbody. apply R3. exact Hk. }
  destruct err as [msg|].
  - exact (Hfin "failed" (Some msg)).
  - exact (Hfin "succeeded" None).
Qed.

Lemma other_runs_keep (u step : string) :
  forall r, negb (run_key u step r) = true -> run_key u step r = false.
Proof. intros r H. apply negb_true_iff in H. exact H. Qed.

(** Extra. For the ingest, logos, images, achievements, story and skills
    jobs (each [processStep] around its body; the completeness job records
    no run and is not covered), with a body that does not touch
    [pipeline_runs], the worker leaves the latest run of (user, step) succeeded, or failed
    with the body's error message; it adds a run only when (user, step)
    had none, and the runs of every other (user, step) are unchanged. *)
Theorem processStep_records_outcome (name : string)
    (body : Store -> Store * option string) (u : string) (s : Store)
    (Hbody : forall s1, pipeline_runs (fst (body s1)) = pipeline_runs s1) :
  let s1 := updatePipelineStatus u name "running" None s in
  let s' := processStep name body u s in
  latest_run u name (pipeline_runs s')
  = Some (match snd (body s1) with
          | None => mkRun u name "succeeded" None
          | Some msg => mkRun u name "failed" (error_or_null (Some msg))
          end) /\
  length (filter (run_key u name) (pipeline_runs s'))
  = Nat.max 1 (length (filter (run_key u name) (pipeline_runs s))) /\
  other_runs u name (pipeline_runs s') = other_runs u name (pipeline_runs s).
Proof.
  intros s1 s'.
  destruct (processStep_spec name body u s Hbody) as [H1 [H2 H3]].
  split; [exact H1|]. split; [exact H2|].
  apply H3. apply other_runs_keep.
Qed.

Lemma processStep_records_outcome_witness :
  (forall s1 : Store, pipeline_runs (fst (s1, Some "boom")) = pipeline_runs s1) /\
  (let s := mkStore [] [] [] [] in
   let s1 := updatePipelineStatus "u1" "story" "running" None s in
   let s' := processStep "story" (fun s0 => (s0, Some "boom")) "u1" s in
   latest_run "u1" "story" (pipeline_runs s')
   = Some (match snd ((fun s0 : Store => (s0, Some "boom")) s1) with
           | None => mkRun "u1" "story" "succeeded" None
           | Some msg => mkRun "u1" "story" "failed" (error_or_null (Some msg))
           end) /\
   length (filter (run_key "u1" "story") (pipeline_runs s'))
   = Nat.max 1 (length (filter (run_key "u1" "story") (pipeline_runs s))) /\
   other_runs "u1" "story" (pipeline_runs s') = other_runs "u1" "story" (pipeline_runs s)).
Proof.
  split; [intros s1; reflexivity|].
  apply (processStep_records_outcome "story" (fun s0 => (s0, Some "boom")) "u1"
           (mkStore [] [] [] [])).
  intros s1. reflexivity.
Defined.

(** Extra. The ingest job without a truthy document id and the images
    job without a portrait photo end with their latest run failed with
    the error message of the code, change no other run and leave
    achievements, work experiences and rankings as they were. *)
Theorem jobs_fail_without_required_input
    (runIngestPipeline : string -> string -> Store -> Store * option string)
    (generateProfessionalImages :
       string -> string -> option string -> Store -> Store * option string)
    (u : string) (documentId siteVersionId : option string) (s : Store)
    (Hdoc : truthy_str documentId = false) :
  let si := ingestJob runIngestPipeline u documentId s in
  let sm := imagesJob generateProfessionalImages None u siteVersionId s in
  latest_run u "ingest" (pipeline_runs si)
  = Some (mkRun u "ingest" "failed" (Some "Document ID is required for ingest pipeline")) /\
  other_runs u "ingest" (pipeline_runs si) = other_runs u "ingest" (pipeline_runs s) /\
  achievements si = achievements s /\ work_experiences si = work_experiences s /\
  achievement_rankings si = achievement_rankings s /\
  latest_run u "images" (pipeline_runs sm)
  = Some (mkRun u "images" "failed" (Some "No portrait photo found for user")) /\
  other_runs u "images" (pipeline_runs sm) = other_runs u "images" (pipeline_runs s) /\
  achievements sm = achievements s /\ work_experiences sm = work_experiences s /\
  achievement_rankings sm = achievement_rankings s.
Proof.
  intros si sm.
  assert (Hsi : si = updatePipelineStatus u "ingest" "failed"
                       (Some "Document ID is required for ingest pipeline")
                       (updatePipelineStatus u "ingest" "running" None s)).
  { unfold si, ingestJob, processStep.
    destruct documentId as [d|]; [|reflexivity].
    cbn beta iota. rewrite Hdoc. reflexivity. }
  assert (Hsm : sm = updatePipelineStatus u "images" "failed"
                       (Some "No portrait photo found for user")
                       (updatePipelineStatus u "images" "running" None s))
    by reflexivity.
  clearbody si sm. subst si sm.
  destruct (processStep_spec "ingest"
              (fun s1 => (s1, Some "Document ID is required for ingest pipeline"))
              u s (fun s1 => eq_refl)) as [I1 [_ I3]].
  destruct (processStep_spec "images"
              (fun s1 => (s1, Some "No portrait photo found for user"))
              u s (fun s1 => eq_refl)) as [M1 [_ M3]].
  cbv zeta in I1, I3, M1, M3. unfold processStep in I1, I3, M1, M3.
  cbn [snd] in I1, M1.
  split; [exact I1|]. split; [apply I3, other_runs_keep|].
  split; [reflexivity|]. split; [reflexivity|]. split; [reflexivity|].
  split; [exact M1|]. split; [apply M3, other_runs_keep|].
  split; [reflexivity|]. split; reflexivity.
Qed.

Lemma jobs_fail_without_required_input_witness :
  truthy_str (Some "") = false /\
  (let si := ingestJob (fun _ _ s0 => (s0, None)) "u1" (Some "") (mkStore [] [] [] []) in
   let sm := imagesJob (fun _ _ _ s0 => (s0, None)) None "u1" None (mkStore [] [] [] []) in
   latest_run "u1" "ingest" (pipeline_runs si)
   = Some (mkRun "u1" "ingest" "failed" (Some "Document ID is required for ingest pipeline")) /\
   other_runs "u1" "ingest" (pipeline_runs si)
   = other_runs "u1" "ingest" (pipeline_runs (mkStore [] [] [] [])) /\
   achievements si = [] /\ work_experiences si = [] /\ achievement_rankings si = [] /\
   latest_run "u1" "images" (pipeline_runs sm)
   = Some (mkRun "u1" "images" "failed" (Some "No portrait photo found for user")) /\
   other_runs "u1" "images" (pipeline_runs sm)
   = other_runs "u1" "images" (pipeline_runs (mkStore [] [] [] [])) /\
   achievements sm = [] /\ work_experiences sm = [] /\ achievement_rankings sm = []).
Proof.
  split; [reflexivity|].
  exact (jobs_fail_without_required_input (fun _ _ s0 => (s0, None))
           (fun _ _ _ s0 => (s0, None)) "u1" (Some "") None
           (mkStore [] [] [] []) eq_refl).
Defined.

Lemma enhance_step_runs (gen : string -> option string) (s : Store)
    (x : ScoredAchievement) :
  pipeline_runs (enhance_step gen s x) = pipeline_runs s.
Proof. unfold enhance_step. destruct (_ || _); reflexivity. Qed.

Lemma runAchievementsPipeline_runs (gen : string -> option string) (u : string)
    (s : Store) :
  pipeline_runs (runAchievementsPipeline gen u s) = pipeline_runs s.
Proof.
  unfold runAchievementsPipeline.
  destruct (filter _ (achievements s)) as [|a0 rest]; [reflexivity|].
  cbv zeta. unfold saveAchievementRankings. cbn [pipeline_runs].
  generalize s. induction (selectTop (a0 :: rest)) as [|x xs IH]; intros s0;
    cbn [fold_left]; [reflexivity|].
  rewrite IH. apply enhance_step_runs.
Qed.

Lemma achievementsJob_spec (gen : string -> option string) (u : string) (s : Store) :
  let s' := achievementsJob gen u s in
  latest_run u "achievements" (pipeline_runs s')
  = Some (mkRun u "achievements" "succeeded" None) /\
  length (filter (run_key u "achievements") (pipeline_runs s'))
  = Nat.max 1 (length (filter (run_key u "achievements") (pipeline_runs s))) /\
  other_runs u "achievements" (pipeline_runs s')
  = other_runs u "achievements" (pipeline_runs s).
Proof.
  intros s'.
  destruct (processStep_spec "achievements"
              (fun s1 => (runAchievementsPipeline gen u s1, None)) u s
              (fun s1 => runAchievementsPipeline_runs gen u s1)) as [H1 [H2 H3]].
  split; [exact H1|]. split; [exact H2|]. apply H3, other_runs_keep.
Qed.


Lemma latest_per_name_props (seen : list string) (runs : list PipelineRun) :
  NoDup (map pipeline_name (latest_per_name seen runs)) /\
  (forall r, In r (latest_per_name seen runs) ->
     In r runs /\ ~ In (pipeline_name r) seen) /\
  (forall name, ~ In name seen ->
     find (fun r => String.eqb (pipeline_name r) name) (latest_per_name seen runs)
     = find (fun r => String.eqb (pipeline_name r) name) runs).
Proof.
  revert seen. induction runs as [|r rest IH]; intros seen; simpl.
  - split; [constructor|]. split; [intros _ []|]. intros; reflexivity.
  - destruct (existsb (String.eqb (pipeline_name r)) seen) eqn:E.
    + apply existsb_exists in E as [n [Hn Heq]]. apply String.eqb_eq in Heq.
      destruct (IH seen) as [A1 [A2 A3]].
      split; [exact A1|]. split.
      * intros x Hx. destruct (A2 x Hx). split; [right|]; assumption.
      * intros name Hname. rewrite (A3 name Hname).
        destruct (String.eqb_spec (pipeline_name r) name) as [Hr|Hr];
          [|reflexivity].
        exfalso. apply Hname. rewrite <- Hr, Heq. exact Hn.
    + destruct (IH (pipeline_name r :: seen)) as [A1 [A2 A3]].
      assert (Hnotin : ~ In (pipeline_name r) seen).
      { intros H. assert (Hx : existsb (String.eqb (pipeline_name r)) seen = true)
          by (apply existsb_exists; exists (pipeline_name r);
              split; [exact H | apply String.eqb_refl]).
        congruence. }
      split; [|split].
      * simpl. constructor; [|exact A1].
        intros Hin. apply in_map_iff in Hin as [x [Hx Hxin]].
        destruct (A2 x Hxin) as [_ Hn]. apply Hn. left. symmetry. exact Hx.
      * intros x [<-|Hx]; [split; [left; reflexivity | exact Hnotin]|].
        destruct (A2 x Hx) as [H1 H2]. split; [right; exact H1|].
        intros H. apply H2. right. exact H.
      * intros name Hname. simpl.
        destruct (String.eqb_spec (pipeline_name r) name) as [Hr|Hr];
          [reflexivity|].
        apply A3. intros [H|H]; [exact (Hr H) | exact (Hname H)].
Qed.

Lemma find_filter {A : Type} (p q : A -> bool) (l : list A) :
  find p (filter q l) = find (fun x => q x && p x) l.
Proof.
  induction l as [|x l IH]; simpl; [reflexivity|].
  destruct (q x); simpl; [destruct (p x); simpl; [reflexivity | exact IH] | exact IH].
Qed.

Lemma status_query_spec (runs : list PipelineRun) (u : string) :
  let statuses := fst (getPipelineStatus runs u) in
  NoDup (map pipeline_name statuses) /\
  (forall r, In r statuses -> In r runs /\ run_user r = u) /\
  (forall name,
     find (fun r => String.eqb (pipeline_name r) name) statuses
     = latest_run u name runs).
Proof.
  intros statuses. unfold statuses, getPipelineStatus. simpl fst.
  destruct (latest_per_name_props []
              (filter (fun r => String.eqb (run_user r) u) runs)) as [A1 [A2 A3]].
  split; [exact A1|]. split.
  - intros r Hr. destruct (A2 r Hr) as [Hin _].
    apply filter_In in Hin as [Hin Hu]. apply String.eqb_eq in Hu. tauto.
  - intros name. rewrite (A3 name (fun H => H)), find_filter. reflexivity.
Qed.

(** Extra. The status query lists at most one run per step name, each a
    run of the user, and for each step the listed run is the user's
    latest run of that step. *)
Theorem status_query_latest_per_step (runs : list PipelineRun) (u : string) :
  let statuses := fst (getPipelineStatus runs u) in
  NoDup (map pipeline_name statuses) /\
  (forall r, In r statuses -> In r runs /\ run_user r = u) /\
  (forall name,
     find (fun r => String.eqb (pipeline_name r) name) statuses
     = latest_run u name runs).
Proof. exact (status_query_spec runs u). Qed.

(** Extra. After the achievements job the status query lists the user's
    achievements step as succeeded, so the overall status is not
    [not_started]. *)
Theorem status_after_achievements_job (gen : string -> option string)
    (u : string) (s : Store) :
  let res := getPipelineStatus (pipeline_runs (achievementsJob gen u s)) u in
  In (mkRun u "achievements" "succeeded" None) (fst res) /\
  snd res <> "not_started".
Proof.
  intros res.
  destruct (achievementsJob_spec gen u s) as [H1 _].
  destruct (status_query_spec (pipeline_runs (achievementsJob gen u s)) u)
    as [_ [_ A3]].
  specialize (A3 "achievements"). rewrite H1 in A3.
  apply find_some in A3 as [Hin _].
  split; [exact Hin|].
  unfold res, getPipelineStatus in *. simpl snd. simpl fst in Hin.
  unfold calculateOverallStatus.
  destruct (latest_per_name [] _) as [|r0 rest]; [destruct Hin|].
  simpl length. cbv beta iota zeta.
  destruct (existsb _ _); [discriminate|].
  destruct (existsb _ _); [discriminate|].
  destruct (forallb _ _); discriminate.
Qed.


Lemma append_cancel_l (p a b : string) : (p ++ a = p ++ b)%string -> a = b.
Proof.
  induction p as [|c p IH]; simpl; [tauto|].
  intros H. injection H as H. apply IH. exact H.
Qed.

Lemma make_job_id_step (d1 d2 : PipelineJobData) (t1 t2 : Z) :
  job_user d1 = job_user d2 -> make_job_id d1 t1 = make_job_id d2 t2 ->
  step d1 = step d2.
Proof.
  unfold make_job_id. intros Hu H. rewrite Hu in H.
  apply append_cancel_l in H. simpl in H. injection H as H.
  destruct (step d1), (step d2); simpl in H;
    first [reflexivity | discriminate H].
Qed.

Lemma fullPipelineSteps_NoDup : NoDup fullPipelineSteps.
Proof. unfold fullPipelineSteps. repeat constructor; simpl; intuition discriminate. Qed.

Lemma existsb_id_false (jid : string) (js : list Job) :
  ~ In jid (map job_id js) -> existsb (fun j => String.eqb (job_id j) jid) js = false.
Proof.
  intros H. apply not_true_iff_false. intros Hx.
  apply existsb_exists in Hx as [j [Hj Heq]]. apply String.eqb_eq in Heq.
  apply H. apply in_map_iff. exists j. tauto.
Qed.

Lemma queuePipelineStep_fresh (now : nat -> Z) (data : PipelineJobData)
    (q : QueueState) :
  ~ In (fst (queuePipelineStep now data q)) (map job_id (jobs q)) ->
  jobs (snd (queuePipelineStep now data q))
  = (jobs q ++ [mkJob (fst (queuePipelineStep now data q)) (step_name (step data)) data])%list.
Proof.
  unfold queuePipelineStep. cbn [fst snd jobs]. intros H.
  rewrite (existsb_id_false _ _ H). reflexivity.
Qed.

Lemma queue_steps_jobs (now : nat -> Z) (u : string) (doc sv : option string)
    (steps : list PipelineStep) (q : QueueState) :
  let res := queue_steps now u doc sv steps q in
  NoDup (fst res) ->
  (forall id, In id (fst res) -> ~ In id (map job_id (jobs q))) ->
  map job_id (jobs (snd res)) = (map job_id (jobs q) ++ fst res)%list.
Proof.
  revert q; induction steps as [|st rest IH]; intros q; cbn [queue_steps].
  - simpl. intros _ _. rewrite app_nil_r. reflexivity.
  - destruct (queuePipelineStep now (mkJobData u doc sv st) q) as [jid q1] eqn:E1.
    pose proof (queuePipelineStep_fresh now (mkJobData u doc sv st) q) as Dnew.
    rewrite E1 in Dnew. cbn [fst snd] in Dnew.
    specialize (IH q1).
    destruct (queue_steps now u doc sv rest q1) as [ids q2] eqn:E2.
    cbn [fst snd] in *. intros Hnd Hfresh.
    inversion Hnd as [|? ? Hnin Hnd']; subst.
    assert (Hj : jobs q1 = (jobs q ++ [mkJob jid (step_name st) (mkJobData u doc sv st)])%list).
    { apply Dnew. apply Hfresh. left. reflexivity. }
    rewrite IH.
    + rewrite Hj, map_app, <- app_assoc. reflexivity.
    + exact Hnd'.
    + intros id Hid. rewrite Hj, map_app. intros Hin.
      apply in_app_or in Hin as [Hin|[Hin|[]]].
      * apply (Hfresh id); [right; exact Hid | exact Hin].
      * simpl in Hin. apply Hnin. rewrite Hin. exact Hid.
Qed.

(** Extra. The seven job ids of a full run are pairwise distinct,
    whatever the clock reads, since their step names differ; when none
    of them is queued yet, all seven jobs are appended in order. *)
Theorem queueFullPipeline_distinct_ids (now : nat -> Z) (userId documentId : string)
    (sv : option string) (q : QueueState) :
  let res := queueFullPipeline now userId documentId sv q in
  NoDup (fst res) /\
  ((forall id, In id (fst res) -> ~ In id (map job_id (jobs q))) ->
     map job_id (jobs (snd res)) = (map job_id (jobs q) ++ fst res)%list).
Proof.
  intros res.
  destruct (queue_steps_spec now userId (Some documentId) sv fullPipelineSteps q)
    as [H1 [_ [_ H4]]].
  assert (Hnd : NoDup (fst res)).
  { apply NoDup_nth_error. intros i j Hi Hij.
    unfold res, queueFullPipeline in *.
    rewrite H1 in Hi.
    destruct (nth_error fullPipelineSteps i) as [sti|] eqn:Ei;
      [|apply nth_error_None in Ei; lia].
    rewrite (H4 i sti Ei) in Hij.
    destruct (nth_error fullPipelineSteps j) as [stj|] eqn:Ej.
    - rewrite (H4 j stj Ej) in Hij. injection Hij as Hij.
      apply make_job_id_step in Hij; [|reflexivity]. simpl in Hij. subst stj.
      apply (proj1 (NoDup_nth_error fullPipelineSteps) fullPipelineSteps_NoDup i j).
      + apply nth_error_Some. rewrite Ei. discriminate.
      + rewrite Ei, Ej. reflexivity.
    - exfalso. apply nth_error_None in Ej. rewrite <- H1 in Ej.
      apply nth_error_None in Ej. rewrite Ej in Hij. discriminate. }
  split; [exact Hnd|].
  apply queue_steps_jobs. exact Hnd.
Qed.


Lemma select_logo_agrees (env : LogoEnv) (companyName : string) :
  truthy_field (fst (select_logo env companyName))
    = logoUrl (fst (fetchCompanyLogo env companyName)) /\
  (logoUrl (fst (fetchCompanyLogo env companyName)) <> None ->
     snd (select_logo env companyName) = source (fst (fetchCompanyLogo env companyName))).
Proof.
  unfold select_logo, fetchCompanyLogo.
  destruct (tryBrandfetch env companyName) as [r1 t1].
  destruct (tryLogoDev env companyName) as [r2 t2].
  destruct (generateWithIdeogram env companyName) as [r3 t3].
  cbn [fst snd].
  destruct r1 as [[|c1 s1]|], r2 as [[|c2 s2]|], r3 as [[|c3 s3]|]; cbn;
    split; first [reflexivity | intros H; first [reflexivity | congruence]].
Qed.

(** Extra. [fetchAndSaveCompanyLogo] downloads the URL
    [fetchCompanyLogo] selects and records its source. It succeeds
    exactly when a URL is found, the download works and the upload and
    both inserts succeed, and only then links an asset to the company.
    Without a URL nothing changes; when only the link insert fails, the
    new asset row is left without a link. *)
Theorem fetchAndSaveCompanyLogo_outcome (env : LogoEnv) (senv : SaveEnv)
    (companyId companyName : string) (ls : LogoStore) :
  let res := fetchAndSaveCompanyLogo env senv companyId companyName ls in
  let fc := fst (fetchCompanyLogo env companyName) in
  (fst (fst res) = true <->
     exists url header, logoUrl fc = Some url /\ download senv url = Some header /\
       upload_ok senv = true /\ asset_insert_ok senv = true /\
       link_insert_ok senv = true) /\
  (fst (fst res) = true ->
     snd (fst res) = Some (source fc) /\
     company_assets (snd res)
       = (company_assets ls ++ [mkCompanyAsset companyId (new_asset_id senv) true])%list /\
     exists a, assets (snd res) = (assets ls ++ [a])%list /\
       as_id a = new_asset_id senv /\ as_source a = source fc) /\
  (fst (fst res) = false ->
     snd (fst res) = None /\ company_assets (snd res) = company_assets ls) /\
  (logoUrl fc = None -> res = ((false, None), ls)) /\
  (forall url header, logoUrl fc = Some url -> download senv url = Some header ->
     upload_ok senv = true -> asset_insert_ok senv = true ->
     link_insert_ok senv = false ->
     exists a, assets (snd res) = (assets ls ++ [a])%list /\ as_id a = new_asset_id senv).
Proof.
  intros res fc. unfold res.
  pose proof (select_logo_agrees env companyName) as [Hu Hs].
  change (fst (fetchCompanyLogo env companyName)) with fc in Hu, Hs.
  unfold fetchAndSaveCompanyLogo.
  destruct (select_logo env companyName) as [lu src]. cbn [fst snd] in Hu, Hs.
  rewrite <- Hu in Hs |- *. clearbody fc.
  revert Hs. destruct (truthy_field lu) as [url|]; intros Hs.
  - specialize (Hs ltac:(discriminate)). rewrite <- Hs.
    destruct (download senv url) as [h|] eqn:Ed.
    + destruct (upload_ok senv), (asset_insert_ok senv), (link_insert_ok senv); cbn.
      all: repeat (first [progress intros | split]);
        try solve [reflexivity | discriminate | exists url, h; repeat split; assumption
                  | eexists; repeat split; reflexivity
                  | match goal with H : exists _ _, _ |- _ =>
                      destruct H as (? & ? & ? & ? & ? & ? & ?); discriminate end].
    + cbn. repeat (first [progress intros | split]);
        try solve [reflexivity | discriminate
                  | match goal with H : exists _ _, _ |- _ =>
                      destruct H as (? & ? & Hx & Hy & ?); congruence end
                  | congruence].
  - cbn. repeat (first [progress intros | split]);
        try solve [reflexivity | discriminate
                  | match goal with H : exists _ _, _ |- _ =>
                      destruct H as (? & ? & Hx & ?); congruence end
                  | congruence].
Qed.


Lemma fetchAndSave_links (env : LogoEnv) (senv : SaveEnv) (c n : string) (ls : LogoStore) :
  company_assets (snd (fetchAndSaveCompanyLogo env senv c n ls))
  = (company_assets ls ++
     if fst (fst (fetchAndSaveCompanyLogo env senv c n ls))
     then [mkCompanyAsset c (new_asset_id senv) true] else [])%list.
Proof.
  unfold fetchAndSaveCompanyLogo.
  destruct (select_logo env n) as [lu src].
  destruct (truthy_field lu) as [url|]; [|cbn; rewrite app_nil_r; reflexivity].
  destruct (download senv url) as [h|]; [|cbn; rewrite app_nil_r; reflexivity].
  destruct (upload_ok senv), (asset_insert_ok senv), (link_insert_ok senv); cbn;
    first [reflexivity | rewrite app_nil_r; reflexivity].
Qed.

Lemma fetchAndSave_result_indep (env : LogoEnv) (senv : SaveEnv) (c n : string)
    (ls1 ls2 : LogoStore) :
  fst (fetchAndSaveCompanyLogo env senv c n ls1)
  = fst (fetchAndSaveCompanyLogo env senv c n ls2).
Proof.
  unfold fetchAndSaveCompanyLogo.
  destruct (select_logo env n) as [lu src].
  destruct (truthy_field lu) as [url|]; [|reflexivity].
  destruct (download senv url) as [h|]; [|reflexivity].
  destruct (upload_ok senv), (asset_insert_ok senv), (link_insert_ok senv); reflexivity.
Qed.

Lemma map_set_keys (k v : string) (m : list (string * string)) :
  (forall x, In x (map fst (map_set k v m)) <-> x = k \/ In x (map fst m)) /\
  (NoDup (map fst m) -> NoDup (map fst (map_set k v m))).
Proof.
  induction m as [|[k' v'] rest [IHin IHnd]]; cbn [map_set].
  - split; [intros x; simpl; firstorder congruence | intros _; repeat constructor; simpl; tauto].
  - destruct (String.eqb k' k) eqn:E.
    + apply String.eqb_eq in E. subst k'. simpl.
      split; [intros x; firstorder congruence | exact (fun H => H)].
    + apply String.eqb_neq in E. simpl. split.
      * intros x. rewrite IHin. firstorder congruence.
      * intros Hnd. inversion Hnd as [|? ? Hn Hnd']; subst. constructor.
        -- rewrite IHin. intros [H|H]; [congruence | tauto].
        -- exact (IHnd Hnd').
Qed.

Lemma collect_companies_NoDup (workExps : list WorkExpJoin) :
  NoDup (map fst (collect_companies workExps)).
Proof.
  unfold collect_companies.
  assert (G : forall m, NoDup (map fst m) ->
    NoDup (map fst (fold_left (fun m exp =>
      match wj_company exp with
      | Some (cid, name) => if truthy_str (wj_company_id exp) then map_set cid name m else m
      | None => m
      end) workExps m))).
  { induction workExps as [|e rest IH]; intros m Hm; [exact Hm|].
    cbn [fold_left]. apply IH.
    destruct (wj_company e) as [[cid name]|]; [|exact Hm].
    destruct (truthy_str (wj_company_id e)); [|exact Hm].
    apply (proj2 (map_set_keys cid name m)). exact Hm. }
  apply G. constructor.
Qed.

Lemma links_of_app (c : string) (l1 l2 : list CompanyAssetRow) :
  links_of c (l1 ++ l2) = (links_of c l1 ++ links_of c l2)%list.
Proof. unfold links_of. apply filter_app. Qed.

Lemma process_company_links (env : LogoEnv) (senv : string -> SaveEnv)
    (ls : LogoStore) (c n : string) :
  company_assets (process_company env senv ls (c, n))
  = (company_assets ls ++
     if (length (links_of c (company_assets ls)) =? 1)%nat then []
     else if fst (fst (fetchAndSaveCompanyLogo env (senv c) c n ls))
     then [mkCompanyAsset c (new_asset_id (senv c)) true] else [])%list.
Proof.
  unfold process_company.
  destruct (links_of c (company_assets ls)) as [|x [|y rest]] eqn:E; cbn [single length Nat.eqb];
    first [rewrite app_nil_r; reflexivity | apply fetchAndSave_links].
Qed.

Section LogoRun.
Variable env : LogoEnv.
Variable senv : string -> SaveEnv.

Lemma fold_process_spec (cs : list (string * string)) (ls0 : LogoStore) :
  let ls1 := fold_left (process_company env senv) cs ls0 in
  NoDup (map fst cs) ->
  (exists added, company_assets ls1 = (company_assets ls0 ++ added)%list /\
     forall r, In r added -> In (ca_company_id r) (map fst cs) /\ is_primary r = true) /\
  (forall cid, ~ In cid (map fst cs) ->
     links_of cid (company_assets ls1) = links_of cid (company_assets ls0)) /\
  (forall cid name, In (cid, name) cs ->
     length (links_of cid (company_assets ls1)) =
       if (length (links_of cid (company_assets ls0)) =? 1)%nat then 1%nat
       else if fst (fst (fetchAndSaveCompanyLogo env (senv cid) cid name ls0))
            then S (length (links_of cid (company_assets ls0)))
            else length (links_of cid (company_assets ls0))).
Proof.
  revert ls0; induction cs as [|[c n] rest IH]; intros ls0 ls1 Hnd.
  - split; [exists []; split; [symmetry; apply app_nil_r | intros r []]|].
    split; [reflexivity | intros cid name []].
  - inversion Hnd as [|? ? Hc Hnd']; subst. cbn [map fst] in *.
    set (mid := process_company env senv ls0 (c, n)).
    assert (Hmid := process_company_links env senv ls0 c n). fold mid in Hmid.
    destruct (IH mid Hnd') as [[added [Hadd Hrows]] [Hout Hin]].
    assert (Hkeep : forall cid, cid <> c ->
              links_of cid (company_assets mid) = links_of cid (company_assets ls0)).
    { intros cid Hne. rewrite Hmid, links_of_app.
      destruct (_ =? 1)%nat; [apply app_nil_r|].
      destruct (fst (fst (fetchAndSaveCompanyLogo env (senv c) c n ls0)));
        [|apply app_nil_r].
      cbn. apply String.eqb_neq in Hne. rewrite String.eqb_sym, Hne. apply app_nil_r. }
    unfold ls1. cbn [fold_left]. fold mid.
    split; [|split].
    + set (step := if (length (links_of c (company_assets ls0)) =? 1)%nat then []
                   else if fst (fst (fetchAndSaveCompanyLogo env (senv c) c n ls0))
                   then [mkCompanyAsset c (new_asset_id (senv c)) true] else []).
      exists (step ++ added)%list. split.
      * rewrite Hadd, Hmid, <- app_assoc. reflexivity.
      * intros r Hr. apply in_app_or in Hr as [Hr|Hr].
        -- unfold step in Hr. destruct (_ =? 1)%nat; [destruct Hr|].
           destruct (fst (fst _)); [|destruct Hr].
           destruct Hr as [<-|[]]. split; [left; reflexivity | reflexivity].
        -- destruct (Hrows r Hr) as [H1 H2]. split; [right; exact H1 | exact H2].
    + intros cid Hcid. rewrite Hout by (intros H; apply Hcid; right; exact H).
      apply Hkeep. intros ->. apply Hcid. left. reflexivity.
    + intros cid name [Heq|Hr].
      * injection Heq as <- <-. rewrite Hout by exact Hc. rewrite Hmid, links_of_app.
        rewrite length_app.
        destruct (length (links_of c (company_assets ls0)) =? 1)%nat eqn:E1.
        -- apply Nat.eqb_eq in E1. rewrite E1. reflexivity.
        -- destruct (fst (fst _)); cbn; [|lia].
           rewrite String.eqb_refl. cbn. lia.
      * assert (Hne : cid <> c).
        { intros ->. apply Hc. apply in_map_iff. exists (c, name). split; [reflexivity|exact Hr]. }
        rewrite (Hin cid name Hr), (Hkeep cid Hne).
        rewrite (fetchAndSave_result_indep env (senv cid) cid name mid ls0). reflexivity.
Qed.

End LogoRun.

(** Extra. [runLogoPipeline] handles each of the user's companies once
    and only appends primary [company_assets] rows for those companies.
    A company with exactly one row gets none; a company with no row or
    with several rows (where [maybeSingle] gives no data) gets one more
    row exactly when its logo save succeeds. *)
Theorem runLogoPipeline_links (env : LogoEnv) (senv : string -> SaveEnv)
    (workExpRows : list WorkExpJoin) (userId : string) (ls : LogoStore) :
  let companies :=
    collect_companies (filter (fun e => String.eqb (wj_user e) userId) workExpRows) in
  let ls' := runLogoPipeline env senv workExpRows userId ls in
  NoDup (map fst companies) /\
  (exists added, company_assets ls' = (company_assets ls ++ added)%list /\
     forall r, In r added -> In (ca_company_id r) (map fst companies) /\ is_primary r = true) /\
  (forall cid, ~ In cid (map fst companies) ->
     links_of cid (company_assets ls') = links_of cid (company_assets ls)) /\
  (forall cid name, In (cid, name) companies ->
     length (links_of cid (company_assets ls')) =
       if (length (links_of cid (company_assets ls)) =? 1)%nat then 1%nat
       else if fst (fst (fetchAndSaveCompanyLogo env (senv cid) cid name ls))
            then S (length (links_of cid (company_assets ls)))
            else length (links_of cid (company_assets ls))).
Proof.
  intros companies ls'.
  assert (Hnd : NoDup (map fst companies)) by apply collect_companies_NoDup.
  split; [exact Hnd|].
  assert (Hc0 : companies = collect_companies
            (filter (fun e => String.eqb (wj_user e) userId) workExpRows)) by reflexivity.
  clearbody companies. unfold ls', runLogoPipeline. clear ls'.
  destruct (filter (fun e => String.eqb (wj_user e) userId) workExpRows) as [|e rest] eqn:Ew.
  - rewrite Hc0. split; [exists []; split; [symmetry; apply app_nil_r | intros r []]|].
    split; [reflexivity | intros cid name []].
  - rewrite Hc0 in Hnd |- *. exact (fold_process_spec env senv _ ls Hnd).
Qed.


Lemma assign_ranks_ranks (k : nat) (l : list ScoredAchievement) :
  map rank (assign_ranks k l) = seq (S k) (length l).
Proof.
  revert k; induction l as [|x l IH]; intros k; simpl; [reflexivity|].
  rewrite IH. reflexivity.
Qed.

Lemma firstn_seq_min (n s m : nat) : firstn n (seq s m) = seq s (Nat.min n m).
Proof.
  revert n s; induction m as [|m IH]; intros n s.
  - rewrite Nat.min_0_r. apply firstn_nil.
  - destruct n as [|n]; [reflexivity|]. simpl. rewrite IH. reflexivity.
Qed.

Lemma in_firstn_in {A : Type} (n : nat) (l : list A) (x : A) :
  In x (firstn n l) -> In x l.
Proof.
  intros H. rewrite <- (firstn_skipn n l). apply in_or_app. left. exact H.
Qed.

Lemma selectTop_ranks (l : list Achievement) :
  map rank (selectTop l) = seq 1 (Nat.min topCount (length l)).
Proof.
  unfold selectTop. rewrite <- firstn_map.
  unfold rankAchievements. rewrite assign_ranks_ranks, firstn_seq_min.
  rewrite (Permutation_length (sort_stable_perm _ _)).
  unfold score_all. rewrite length_map. reflexivity.
Qed.

Lemma selectTop_in (l : list Achievement) (x : ScoredAchievement) :
  In x (selectTop l) -> In (sa x) l.
Proof.
  unfold selectTop, rankAchievements. intros H. apply in_firstn_in in H.
  destruct (assign_ranks_in _ _ _ H) as [y [Hy [Hsa _]]].
  apply (Permutation_in _ (sort_stable_perm _ _)) in Hy.
  rewrite Hsa. exact (proj1 (score_all_in _ _ Hy)).
Qed.

Lemma filter_idem {A : Type} (p : A -> bool) (l : list A) :
  filter p (filter p l) = filter p l.
Proof.
  induction l as [|x l IH]; simpl; [reflexivity|].
  destruct (p x) eqn:E; simpl; [rewrite E, IH|]; [reflexivity|exact IH].
Qed.

Lemma filter_neg_empty {A : Type} (p : A -> bool) (l : list A) :
  filter p (filter (fun x => negb (p x)) l) = [].
Proof.
  induction l as [|x l IH]; simpl; [reflexivity|].
  destruct (p x) eqn:E; simpl; [exact IH | rewrite E; exact IH].
Qed.

Lemma apply_enhancement_other (aid : string) (e : Enhanced) (b : Achievement) :
  id b <> aid -> apply_enhancement aid e b = b.
Proof.
  intros H. unfold apply_enhancement. apply String.eqb_neq in H. rewrite H. reflexivity.
Qed.

Lemma enhance_fold_spec (gen : string -> option string) (top : list ScoredAchievement)
    (s : Store) :
  let s1 := fold_left (enhance_step gen) top s in
  achievement_rankings s1 = achievement_rankings s /\
  work_experiences s1 = work_experiences s /\
  pipeline_runs s1 = pipeline_runs s /\
  length (achievements s1) = length (achievements s) /\
  (forall i b, nth_error (achievements s) i = Some b ->
     ~ In (id b) (map (fun x => id (sa x)) top) ->
     nth_error (achievements s1) i = Some b).
Proof.
  revert s; induction top as [|x top IH]; intros s s1.
  - unfold s1. cbn [fold_left]. repeat split; intros; assumption.
  - unfold s1. cbn [fold_left].
    destruct (IH (enhance_step gen s x)) as [H1 [H2 [H3 [H4 H5]]]].
    unfold enhance_step in *. destruct (_ || _).
    + cbn [achievement_rankings work_experiences pipeline_runs achievements] in *.
      rewrite H1, H2, H3, H4, length_map.
      repeat split. intros i b Hb Hnin. apply H5.
      * rewrite nth_error_map, Hb. cbn. rewrite apply_enhancement_other; [reflexivity|].
        intros Heq. apply Hnin. left. symmetry. exact Heq.
      * intros Hin. apply Hnin. right. exact Hin.
    + rewrite H1, H2, H3, H4. repeat split. intros i b Hb Hnin. apply H5; [exact Hb|].
      intros Hin. apply Hnin. right. exact Hin.
Qed.

Lemma runAchievementsPipeline_nonempty (gen : string -> option string) (u : string)
    (s : Store) :
  filter (fun a => String.eqb (user_id a) u) (achievements s) <> [] ->
  runAchievementsPipeline gen u s
  = saveAchievementRankings u
      (selectTop (filter (fun a => String.eqb (user_id a) u) (achievements s)))
      (fold_left (enhance_step gen)
         (selectTop (filter (fun a => String.eqb (user_id a) u) (achievements s))) s).
Proof.
  intros H. unfold runAchievementsPipeline.
  destruct (filter _ (achievements s)) eqn:E; [contradiction | reflexivity].
Qed.

(** Extra. For a user with achievements, [runAchievementsPipeline]
    leaves exactly one ranking row for the user, ranked 1 to min(6, n)
    and naming only the user's achievements; rankings of other users,
    the number of achievements, work experiences and runs are unchanged,
    and an achievement not in the snapshot is unchanged. *)
Theorem achievements_snapshot_replaced (gen : string -> option string) (s : Store)
    (u : string)
    (Hne : filter (fun a => String.eqb (user_id a) u) (achievements s) <> []) :
  let achs := filter (fun a => String.eqb (user_id a) u) (achievements s) in
  let s' := runAchievementsPipeline gen u s in
  (exists its,
     filter (fun r => String.eqb (ranking_user r) u) (achievement_rankings s')
       = [mkRanking u its "weighted_sum_v1" (0.4, 0.3, 0.3)] /\
     map item_rank its = seq 1 (Nat.min 6 (length achs)) /\
     (forall it, In it its -> exists a, In a achs /\ id a = achievement_id it) /\
     (forall i b, nth_error (achievements s) i = Some b ->
        ~ In (id b) (map achievement_id its) ->
        nth_error (achievements s') i = Some b)) /\
  filter (fun r => negb (String.eqb (ranking_user r) u)) (achievement_rankings s')
    = filter (fun r => negb (String.eqb (ranking_user r) u)) (achievement_rankings s) /\
  length (achievements s') = length (achievements s) /\
  work_experiences s' = work_experiences s /\
  pipeline_runs s' = pipeline_runs s.
Proof.
  intros achs s'.
  assert (Hs' := runAchievementsPipeline_nonempty gen u s Hne).
  change (filter (fun a => String.eqb (user_id a) u) (achievements s)) with achs in Hs'.
  change (runAchievementsPipeline gen u s) with s' in Hs'.
  clearbody s' achs. subst s'.
  destruct (enhance_fold_spec gen (selectTop achs) s) as [H1 [H2 [H3 [H4 H5]]]].
  set (s1 := fold_left (enhance_step gen) (selectTop achs) s) in *.
  unfold saveAchievementRankings.
  cbn [achievement_rankings achievements work_experiences pipeline_runs].
  split; [|split; [|split; [exact H4 | split; [exact H2 | exact H3]]]].
  - exists (map (fun x => mkRankItem (id (sa x)) (rank x) (score x)) (selectTop achs)).
    split; [|split; [|split]].
    + rewrite filter_app, filter_neg_empty. cbn. rewrite String.eqb_refl. reflexivity.
    + rewrite map_map. cbn. apply selectTop_ranks.
    + intros it Hit. apply in_map_iff in Hit as [x [<- Hx]].
      exists (sa x). split; [apply selectTop_in; exact Hx | reflexivity].
    + intros i b Hb Hnin. apply H5; [exact Hb|]. rewrite map_map in Hnin. exact Hnin.
  - rewrite filter_app, filter_idem, H1. cbn [filter ranking_user].
    rewrite String.eqb_refl. cbn [negb]. apply app_nil_r.
Qed.

Lemma achievements_snapshot_replaced_witness :
  let s0 := mkStore
              [mkAchievement "a1" "u1" None "Led a team" None None None None
                 None None None None] [] [] [] in
  filter (fun a => String.eqb (user_id a) "u1") (achievements s0) <> [] /\
  (let achs := filter (fun a => String.eqb (user_id a) "u1") (achievements s0) in
   let s' := runAchievementsPipeline (fun _ => None) "u1" s0 in
   (exists its,
      filter (fun r => String.eqb (ranking_user r) "u1") (achievement_rankings s')
        = [mkRanking "u1" its "weighted_sum_v1" (0.4, 0.3, 0.3)] /\
      map item_rank its = seq 1 (Nat.min 6 (length achs)) /\
      (forall it, In it its -> exists a, In a achs /\ id a = achievement_id it) /\
      (forall i b, nth_error (achievements s0) i = Some b ->
         ~ In (id b) (map achievement_id its) ->
         nth_error (achievements s') i = Some b)) /\
   filter (fun r => negb (String.eqb (ranking_user r) "u1")) (achievement_rankings s')
     = filter (fun r => negb (String.eqb (ranking_user r) "u1")) (achievement_rankings s0) /\
   length (achievements s') = length (achievements s0) /\
   work_experiences s' = work_experiences s0 /\
   pipeline_runs s' = pipeline_runs s0).
Proof.
  intros s0.
  assert (Hne : filter (fun a => String.eqb (user_id a) "u1") (achievements s0) <> [])
    by (simpl; discriminate).
  split; [exact Hne|].
  exact (achievements_snapshot_replaced (fun _ => None) s0 "u1" Hne).
Defined.
